(** * django-sage-slug: slug derivation, uniqueness, the SlugSwap ledger
      and the old-slug redirect middleware

    A shallow embedding of [sage_slug/fields.py], [sage_slug/models.py],
    [sage_slug/mixins.py] and [sage_slug/middleware/slug_swap.py].

    Python objects are attribute maps, model tables are finite maps from
    primary key to a row, querysets are such maps narrowed by [filter] and
    [exclude], and a call returns an [Outcome]: a value, a raised exception,
    or no answer at all for a [while] loop that never leaves. *)

From Stdlib Require Import Ascii String.
From stdpp Require Import base strings gmap list fin_maps pretty.

Open Scope string_scope.
Open Scope list_scope.

(** ** Python values and control flow *)

Inductive Exc :=
  | IntegrityError
  | MultipleObjectsReturned
  | AttributeError
  | Http404.

Inductive Outcome (A : Type) :=
  | Returns (a : A)
  | Raises (e : Exc)
  | Loops.
Arguments Returns {A} a.
Arguments Raises {A} e.
Arguments Loops {A}.

(** Truth value of a [str]: the empty string is falsy. *)
Definition truthy (s : string) : bool := bool_decide (s ≠ "").

(** Truth value of a primary key: [None] and [0] are falsy. *)
Definition pk_truthy (p : option Z) : bool :=
  match p with
  | Some k => bool_decide (k ≠ 0%Z)
  | None => false
  end.

(** A [str] is held as its UTF-8 bytes. [len] and slicing count characters,
    not bytes: a character starts at every byte that is not a continuation
    byte (one of the form 10xxxxxx), and the continuation bytes after it
    belong to it. *)
Definition is_continuation (c : ascii) : bool :=
  (128 <=? nat_of_ascii c)%nat && (nat_of_ascii c <? 192)%nat.

(** [len(s)]. *)
Fixpoint py_len (s : string) : nat :=
  match s with
  | EmptyString => 0
  | String c rest => ((if is_continuation c then 0 else 1) + py_len rest)%nat
  end.

(** [s[:n]]. *)
Fixpoint py_take (n : nat) (s : string) : string :=
  match s with
  | EmptyString => EmptyString
  | String c rest =>
      if is_continuation c then String c (py_take n rest)
      else
        match n with
        | O => EmptyString
        | S n' => String c (py_take n' rest)
        end
  end.

(** ** Model instances and tables *)

(** An in-memory model instance: its model class (the lower-case name that
    [ContentType.model] holds), its primary key and its field values. *)
Record Instance := {
  cls : string;
  pk : option Z;
  attrs : gmap string string
}.

(** Every declared field of a model instance has a value; a field that was
    never assigned holds its default, the empty string. *)
Definition getattr (a : gmap string string) (name : string) : string :=
  default "" (a !! name).

Definition setattr (self : Instance) (name value : string) : Instance :=
  {| cls := cls self; pk := pk self; attrs := <[name := value]> (attrs self) |}.

(** A queryset over one table: primary key to row. *)
Definition matches (filters row : gmap string string) : Prop :=
  map_Forall (λ name v, getattr row name = v) filters.

#[global] Instance matches_dec filters row : Decision (matches filters row) :=
  ltac:(unfold matches; exact _).

Definition qs_filter (filters : gmap string string)
    (qs : gmap Z (gmap string string)) : gmap Z (gmap string string) :=
  filter (λ kv, matches filters kv.2) qs.

(** [exclude(pk=p)]; [exclude(pk=None)] removes no row. *)
Definition qs_exclude (p : option Z)
    (qs : gmap Z (gmap string string)) : gmap Z (gmap string string) :=
  match p with
  | Some k => delete k qs
  | None => qs
  end.

Definition qs_exists (qs : gmap Z (gmap string string)) : bool :=
  bool_decide (qs ≠ ∅).

(** The values one column takes in a table. *)
Definition column (name : string) (qs : gmap Z (gmap string string)) : list string :=
  (λ kv, getattr kv.2 name) <$> map_to_list qs.

(** ** The suffix scan shared by both uniqueness loops

    Candidate number [0] is the base slug, candidate [k] is
    [f"{base}{sep}{k}"]. *)
Definition candidate (base sep : string) (k : N) : string :=
  if decide (k = 0%N) then base else base +:+ sep +:+ pretty k.

(** What the specification asks of uniqueness resolution: the base slug when
    it is free, otherwise the first free suffixed slug, counting from 1. *)
Definition resolves (taken : string → bool) (base sep result : string) : Prop :=
  (taken base = false ∧ result = base) ∨
  (taken base = true ∧
   ∃ k : N, (1 ≤ k)%N ∧ result = base +:+ sep +:+ pretty k ∧
     taken result = false ∧
     ∀ j : N, (1 ≤ j < k)%N → taken (base +:+ sep +:+ pretty j) = true).

(** ** fields.py *)

Module Fields.

(** [populate_from]: an attribute name or a callable on the instance. *)
Inductive Source :=
  | Attr (name : string)
  | Callable (f : Instance → string).

Record SAGESlugField := {
  attname : string;
  populate_from : option Source;
  sep : string;
  slugify : string → string;
  unique_with : list string;
  always_update : bool;
  allow_unicode : bool;
  unique : bool
}.

(** The [unique_with] argument of [__init__]: absent, one name, or a
    list or tuple of names. *)
Inductive UniqueWithArg :=
  | UwNone
  | UwName (name : string)
  | UwNames (names : list string).

Definition normalise_unique_with (u : UniqueWithArg) : list string :=
  match u with
  | UwNames names => names
  | UwName name => if truthy name then [name] else []
  | UwNone => []
  end.

(** [__init__], with [django_slugify] the framework's [slugify]. *)
Definition init (django_slugify : string → string) (name : string)
    (populate : option Source) (separator : option string)
    (custom_slugify : option (string → string)) (uw : UniqueWithArg)
    (always allow is_unique : bool) : SAGESlugField :=
  {| attname := name;
     populate_from := populate;
     sep := default "-" separator;
     slugify := default django_slugify custom_slugify;
     unique_with := normalise_unique_with uw;
     always_update := always;
     allow_unicode := allow;
     unique := is_unique |}.

Definition source_truthy (s : option Source) : bool :=
  match s with
  | Some (Attr name) => truthy name
  | Some (Callable _) => true
  | None => false
  end.

Definition get_prepopulated_value (fld : SAGESlugField) (instance : Instance) : string :=
  match populate_from fld with
  | Some (Callable f) => f instance
  | Some (Attr name) => getattr (attrs instance) name
  | None => ""
  end.

(** The keyword filters of the partial-uniqueness probe: one entry per
    [unique_with] field, then the slug column, which overrides an entry of
    the same name. *)
Definition partial_filters (fld : SAGESlugField) (slug : string)
    (instance : Instance) : gmap string string :=
  <[attname fld := slug]>
    (list_to_map ((λ field, (field, getattr (attrs instance) field)) <$> unique_with fld)).

Definition is_slug_exists (fld : SAGESlugField)
    (model : gmap Z (gmap string string)) (slug : string) (instance : Instance) : bool :=
  let queryset := model in
  let queryset :=
    if pk_truthy (pk instance) then qs_exclude (pk instance) queryset else queryset in
  if unique fld then
    qs_exists (qs_filter {[attname fld := slug]} queryset)
  else if bool_decide (unique_with fld ≠ []) then
    qs_exists (qs_filter (partial_filters fld slug instance) queryset)
  else false.

(** The [while] loop of [generate_unique_slug], by iterations left. *)
Fixpoint unique_loop (fld : SAGESlugField) (model : gmap Z (gmap string string))
    (instance : Instance) (original_slug : string)
    (fuel : nat) (slug : string) (index : N) : option string :=
  match fuel with
  | O => None
  | S fuel' =>
      if is_slug_exists fld model slug instance then
        unique_loop fld model instance original_slug fuel'
          (original_slug +:+ sep fld +:+ pretty index) (index + 1)%N
      else Some slug
  end.

(** A table of [n] rows stops the loop within [n + 2] probes. *)
Definition generate_unique_slug (fld : SAGESlugField)
    (model : gmap Z (gmap string string)) (instance : Instance)
    (slug : string) : option string :=
  unique_loop fld model instance slug (size model + 2) slug 1%N.

(** The body of the closure [generate_slug] that [contribute_to_class]
    defines and connects to [pre_save], as it runs when it is called. *)
Definition generate_slug (fld : SAGESlugField)
    (model : gmap Z (gmap string string)) (instance : Instance) : Outcome Instance :=
  let value := getattr (attrs instance) (attname fld) in
  let value :=
    if always_update fld || (source_truthy (populate_from fld) && negb (truthy value))
    then
      let value := get_prepopulated_value fld instance in
      if truthy value then slugify fld value else value
    else value in
  if truthy value && (unique fld || bool_decide (unique_with fld ≠ [])) then
    match generate_unique_slug fld model instance value with
    | Some value => Returns (setattr instance (attname fld) value)
    | None => Loops
    end
  else Returns (setattr instance (attname fld) value).

End Fields.

(** ** models.py *)

Module Models.

(** Modelled from the spec: [sage_slug/helpers/enums.py], which declares
    [RedirectType], is missing. The specification gives the redirect class
    two values, Permanent and Temporary, with Permanent the default;
    [models.py] and the middleware name the default member
    [RedirectType.Primary]. *)
Inductive RedirectType :=
  | Primary
  | Temporary.

#[global] Instance RedirectType_eq_dec : EqDecision RedirectType :=
  ltac:(solve_decision).

(** One row of the [sage_slugswap] table. [content_type] holds the model
    name of the owner's content type. *)
Record SlugSwap := {
  old_slug : string;
  new_slug : string;
  content_type : string;
  object_id : Z;
  redirect_type : RedirectType
}.

(** The database: one table per model class, and the ledger in primary-key
    order. *)
Record Store := {
  tables : gmap string (gmap Z (gmap string string));
  ledger : list SlugSwap
}.

(** [SlugSwap.objects.update_or_create(old_slug=key, defaults={...})]:
    the single row with that key has the defaults assigned and keeps its
    other columns; with no such row a new one is appended, its redirect
    type the field default; with several, [get] raises. [object_id] is a
    [PositiveIntegerField]: the table refuses a negative value, on the
    insert as on the update, and the ledger stays as it was. *)
Definition update_or_create (rows : list SlugSwap) (key : string)
    (new : string) (ct : string) (oid : Z) : Outcome (list SlugSwap) :=
  match filter (λ r, old_slug r = key) rows with
  | [] =>
      if decide (oid < 0)%Z then Raises IntegrityError
      else
        Returns (rows ++ [ {| old_slug := key; new_slug := new; content_type := ct;
                              object_id := oid; redirect_type := Primary |} ])
  | [_] =>
      if decide (oid < 0)%Z then Raises IntegrityError
      else
        Returns ((λ r, if decide (old_slug r = key)
                       then {| old_slug := old_slug r; new_slug := new; content_type := ct;
                               object_id := oid; redirect_type := redirect_type r |}
                       else r) <$> rows)
  | _ => Raises MultipleObjectsReturned
  end.

End Models.

(** ** mixins.py *)

Module Mixins.
Import Models.

(** [type(self).objects]: the table of the instance's model class. *)
Definition objects (st : Store) (self : Instance) : gmap Z (gmap string string) :=
  default ∅ (tables st !! cls self).

Definition get_slug_source_field (self : Instance) : string :=
  getattr (attrs self) "title".

(** [get_title], the admin column. *)
Definition get_title (self : Instance) : string :=
  let TRUNCATE_SIZE := 30 in
  let title := getattr (attrs self) "title" in
  if (py_len title <? TRUNCATE_SIZE)%nat then title
  else py_take 30 title +:+ "...".

Definition check_slug_changed (st : Store) (self : Instance) (new_slug : string) : bool :=
  let pk := pk self in
  if negb (pk_truthy pk) then false
  else
    match pk ≫= (λ k, objects st self !! k) with
    | Some old_instance => bool_decide (getattr old_instance "slug" ≠ new_slug)
    | None => false
    end.

(** The probe of the uniqueness loop:
    [objects.filter(slug=new_slug).exclude(pk=self.pk).exists()]. *)
Definition slug_taken (st : Store) (self : Instance) (new_slug : string) : bool :=
  qs_exists (qs_exclude (pk self) (qs_filter {["slug" := new_slug]} (objects st self))).

Fixpoint unique_loop (st : Store) (self : Instance) (new_slug_base : string)
    (fuel : nat) (new_slug : string) (counter : N) : option string :=
  match fuel with
  | O => None
  | S fuel' =>
      if slug_taken st self new_slug then
        unique_loop st self new_slug_base fuel'
          (new_slug_base +:+ "-" +:+ pretty counter) (counter + 1)%N
      else Some new_slug
  end.

Definition handle_slug_swap_logic (st : Store) (self : Instance)
    (old_slug new_slug : string) : Store * Outcome unit :=
  match pk self with
  | Some k =>
      if pk_truthy (Some k) then
        match update_or_create (ledger st) old_slug new_slug (cls self) k with
        | Returns rows => ({| tables := tables st; ledger := rows |}, Returns ())
        | Raises e => (st, Raises e)
        | Loops => (st, Loops)
        end
      else (st, Returns ())
  | None => (st, Returns ())
  end.

Section Save.
(** [django.utils.text.slugify(value, allow_unicode)]. *)
Variable slugify : string → bool → string.
(** [super().save()]: the framework's write of the instance into the
    table of its class. It returns the table and the instance, which
    has its primary key set by an insert, or raises. *)
Variable super_save :
  gmap Z (gmap string string) → Instance →
  Outcome (gmap Z (gmap string string) * Instance).

Definition generate_new_slug_base (self : Instance) : string :=
  slugify (get_slug_source_field self) true.

Definition generate_unique_slug (st : Store) (self : Instance) : option string :=
  let new_slug_base := generate_new_slug_base self in
  unique_loop st self new_slug_base (size (objects st self) + 2) new_slug_base 1%N.

(** [save] returns the store, the instance as the call left it (the
    caller's object is mutated in place, also when the call raises) and
    how the call ended. *)
Definition save (st : Store) (self : Instance) : Store * Instance * Outcome unit :=
  match generate_unique_slug st self with
  | None => (st, self, Loops)
  | Some new_slug =>
      let old_slug := getattr (attrs self) "slug" in
      let slug_changed := check_slug_changed st self new_slug in
      let self := setattr self "slug" new_slug in
      match super_save (objects st self) self with
      | Returns (model, self') =>
          let st := {| tables := <[cls self := model]> (tables st);
                       ledger := ledger st |} in
          if slug_changed then
            let '(st, out) := handle_slug_swap_logic st self' old_slug new_slug in
            (st, self', out)
          else (st, self', Returns ())
      | Raises e => (st, self, Raises e)
      | Loops => (st, self, Loops)
      end
  end.

(** A caller saving one instance after another, whatever each call's
    outcome. *)
Definition save_all (st : Store) (instances : list Instance) : Store :=
  foldl (λ st self, (save st self).1.1) st instances.

End Save.

(** *** The framework's write for a model that uses the mixin *)

(** The mixin's [slug] column: [SAGESlugField(unique=True, editable=False,
    allow_unicode=True, max_length=255)], every other argument at its
    default. *)
Definition slug_field (slugify : string → bool → string) : Fields.SAGESlugField :=
  Fields.init (λ value, slugify value false) "slug" None None None Fields.UwNone
    false true true.

(** The key an insert receives from the auto field. *)
Definition next_pk (model : gmap Z (gmap string string)) : Z :=
  (1 + foldr Z.max 0 (map_to_list model).*1)%Z.

(** The unique indexes of [title] and [slug]. *)
Definition violates_unique (model : gmap Z (gmap string string)) (self : Instance) : bool :=
  qs_exists (qs_exclude (pk self)
    (qs_filter {["title" := getattr (attrs self) "title"]} model))
  || qs_exists (qs_exclude (pk self)
    (qs_filter {["slug" := getattr (attrs self) "slug"]} model)).

Definition db_write (model : gmap Z (gmap string string)) (self : Instance)
    : Outcome (gmap Z (gmap string string) * Instance) :=
  if violates_unique model self then Raises IntegrityError
  else
    match pk self with
    | Some k => Returns (<[k := attrs self]> model, self)
    | None =>
        let k := next_pk model in
        Returns (<[k := attrs self]> model,
                 {| cls := cls self; pk := Some k; attrs := attrs self |})
    end.

(** [Model.save]: the write. No receiver of the slug field runs with it:
    [contribute_to_class] connects a closure of its own to [pre_save], the
    signal keeps receivers by weak reference, and the closure is gone when
    [contribute_to_class] returns. *)
Definition Model_save (model : gmap Z (gmap string string)) (self : Instance)
    : Outcome (gmap Z (gmap string string) * Instance) :=
  db_write model self.

End Mixins.

(** ** settings/conf.py *)

Module Conf.

(** The fallback of [SAGESLUG_TYPE_MAPPING]: route parameter name to model
    name, in the order the dictionary lists them. *)
Definition default_slug_type_mapping : list (string * string) :=
  [("product_slug", "product"); ("category_slug", "category"); ("post_slug", "post")].

End Conf.

(** A Python value as a setting can hold it. Values are only ever taken
    apart by cases, so no induction scheme is generated. *)
Unset Elimination Schemes.
Inductive PyValue :=
  | PyStr (s : string)
  | PyInt (n : Z)
  | PyNone
  | PyList (items : list PyValue)
  | PyDict (items : list (PyValue * PyValue)).
Set Elimination Schemes.

(** [isinstance(v, str)] and [isinstance(v, dict)]. *)
Definition is_str (v : PyValue) : bool :=
  match v with
  | PyStr _ => true
  | _ => false
  end.

Definition is_dict (v : PyValue) : bool :=
  match v with
  | PyDict _ => true
  | _ => false
  end.

Module SageSlugConfig.

Definition CONFIG_PREFIX : string := "SAGESLUG_".

(** [getattr(settings, setting_name, default_value)], the Django settings
    being a map from setting name to value. *)
Definition get_setting (settings : gmap string PyValue) (setting_name : string)
    (default_value : PyValue) : PyValue :=
  default default_value (settings !! setting_name).

(** [__init__]: the attribute [slug_type_mapping]. *)
Definition slug_type_mapping (settings : gmap string PyValue) : PyValue :=
  get_setting settings (CONFIG_PREFIX +:+ "TYPE_MAPPING")
    (PyDict ((λ kv, (PyStr kv.1, PyStr kv.2)) <$> Conf.default_slug_type_mapping)).

End SageSlugConfig.

(** ** settings/checks.py *)

Module Checks.

(** [django.core.checks.Error(msg, hint=..., id=...)]. *)
Record Error := {
  msg : string;
  hint : string;
  id : string
}.

Section Validate.
(** How an f-string renders a value, [str(value)]. *)
Variable str : PyValue → string.

(** The [for key, value in mapping.items()] loop over the rest of the
    items. *)
Fixpoint check_items (config_name : string) (items : list (PyValue * PyValue))
    (errors : list Error) : list Error :=
  match items with
  | [] => errors
  | (key, value) :: items =>
      let errors :=
        if negb (is_str key) then
          errors ++ [ {| msg := "Invalid key type in " +:+ config_name +:+ ": '"
                                +:+ str key +:+ "' is not a string.";
                         hint := "All keys must be strings representing slug field names.";
                         id := "sageslug.E002" |} ]
        else errors in
      let errors :=
        if negb (is_str value) then
          errors ++ [ {| msg := "Invalid value type in " +:+ config_name +:+ ": '"
                                +:+ str value +:+ "' for key '" +:+ str key
                                +:+ "' is not a string.";
                         hint := "All values must be strings representing slug types.";
                         id := "sageslug.E003" |} ]
        else errors in
      check_items config_name items errors
  end.

Definition validate_type_mapping (mapping : PyValue) (config_name : string) : list Error :=
  let errors := [] in
  match mapping with
  | PyDict items => check_items config_name items errors
  | _ =>
      errors ++ [ {| msg := config_name +:+ " must be a dictionary.";
                     hint := "Ensure " +:+ config_name
                             +:+ " is a dictionary mapping slug field names to types (e.g., {'post_slug': 'post'}).";
                     id := "sageslug.E001" |} ]
  end.

Definition check_sageslug_settings (settings : gmap string PyValue) : list Error :=
  let errors := [] in
  errors ++ validate_type_mapping (SageSlugConfig.slug_type_mapping settings)
              (SageSlugConfig.CONFIG_PREFIX +:+ "TYPE_MAPPING").

End Validate.

End Checks.

(** ** middleware/slug_swap.py *)

Module Middleware.
Import Models.

Record ResolverMatch := {
  view_name : string;
  kwargs : gmap string string
}.

(** [request.resolver_match] is [None] when no route matched the path. *)
Record Request := {
  resolver_match : option ResolverMatch
}.

Inductive Response :=
  | HttpResponse (status : Z)
  | PermanentRedirect (url : string)
  | TemporaryRedirect (url : string).

Definition status_code (response : Response) : Z :=
  match response with
  | HttpResponse status => status
  | PermanentRedirect _ => 301
  | TemporaryRedirect _ => 302
  end.

Section OldSlugRedirectMiddleware.
(** [django.urls.reverse(view_name, kwargs=...)]; [None] stands for
    [NoReverseMatch]. *)
Variable reverse : string → gmap string string → option string.
(** [self.slug_type_mapping], in iteration order. *)
Variable slug_type_mapping : list (string * string).
(** The rows of [SlugSwap.objects], in primary-key order. *)
Variable rows : list SlugSwap.

Definition _get_new_slug (old_slug slug_type : string) : string :=
  match head (filter (λ r, Models.old_slug r = old_slug ∧ content_type r = slug_type) rows) with
  | Some slug_swap => new_slug slug_swap
  | None => old_slug
  end.

(** The [for] loop of [process_response] over the rest of the mapping. *)
Fixpoint collect (request : Request) (mapping : list (string * string))
    (updated_kwargs : gmap string string) : Outcome (gmap string string) :=
  match mapping with
  | [] => Returns updated_kwargs
  | (slug_name, slug_type) :: mapping =>
      match resolver_match request with
      | None => Raises AttributeError
      | Some m =>
          match kwargs m !! slug_name with
          | Some old_slug =>
              if truthy old_slug then
                collect request mapping
                  (<[slug_name := _get_new_slug old_slug slug_type]> updated_kwargs)
              else collect request mapping updated_kwargs
          | None => collect request mapping updated_kwargs
          end
      end
  end.

(** The [for ... break] loop of [_redirect]. *)
Fixpoint first_slug (names : list string) (updated_kwargs : gmap string string)
    : option string :=
  match names with
  | [] => None
  | slug_name :: names =>
      match updated_kwargs !! slug_name with
      | Some v => Some v
      | None => first_slug names updated_kwargs
      end
  end.

Definition _redirect (url : string) (updated_kwargs : gmap string string) : Response :=
  let old_slug := first_slug slug_type_mapping.*1 updated_kwargs in
  match old_slug with
  | Some old_slug =>
      if truthy old_slug then
        match head (filter (λ r, Models.old_slug r = old_slug) rows) with
        | Some slug_swap =>
            if decide (redirect_type slug_swap = Primary)
            then PermanentRedirect url
            else TemporaryRedirect url
        | None => TemporaryRedirect url
        end
      else TemporaryRedirect url
  | None => TemporaryRedirect url
  end.

(** The body of the outer [try]. Leaving it without a [return] falls
    through to [return response]. *)
Definition try_redirect (request : Request) (response : Response) : Outcome Response :=
  match collect request slug_type_mapping ∅ with
  | Returns updated_kwargs =>
      if bool_decide (updated_kwargs ≠ ∅) then
        match resolver_match request with
        | None => Raises AttributeError
        | Some m =>
            match reverse (view_name m) updated_kwargs with
            | Some new_url => Returns (_redirect new_url updated_kwargs)
            | None => Raises Http404
            end
        end
      else Returns response
  | Raises e => Raises e
  | Loops => Loops
  end.

(** Both [except] clauses log and fall through to [return response];
    [Http404] is caught by the second one. *)
Definition process_response (request : Request) (response : Response) : Response :=
  if bool_decide (status_code response = 404%Z) then
    match try_redirect request response with
    | Returns r => r
    | Raises _ => response
    | Loops => response
    end
  else response.

End OldSlugRedirectMiddleware.

End Middleware.

(** ** A runnable [slugify]

    [django.utils.text.slugify] belongs to the framework and is a parameter of
    everything above. The function below follows it on ASCII text, so that the
    mixin and the middleware can be run on concrete titles: lower-case, drop
    every character that is not a word character, white space or a hyphen,
    turn each run of white space and hyphens into one hyphen, strip hyphens and
    underscores from both ends. Bytes above 127 are kept when [allow_unicode]
    is set and dropped otherwise. *)

Module Text.

Definition code (c : ascii) : nat := nat_of_ascii c.

Definition lower (c : ascii) : ascii :=
  if (65 <=? code c)%nat && (code c <=? 90)%nat then ascii_of_nat (code c + 32) else c.

Definition is_word (allow_unicode : bool) (c : ascii) : bool :=
  ((48 <=? code c)%nat && (code c <=? 57)%nat)
  || ((65 <=? code c)%nat && (code c <=? 90)%nat)
  || ((97 <=? code c)%nat && (code c <=? 122)%nat)
  || (code c =? 95)%nat
  || (allow_unicode && (128 <=? code c)%nat).

Definition is_space (c : ascii) : bool :=
  ((9 <=? code c)%nat && (code c <=? 13)%nat)
  || ((28 <=? code c)%nat && (code c <=? 32)%nat).

Definition is_hyphen (c : ascii) : bool := (code c =? 45)%nat.

(** [re.sub(r"[-\s]+", "-", value)]; [in_run] tells that the previous
    character already belonged to the run. *)
Fixpoint collapse (in_run : bool) (value : list ascii) : list ascii :=
  match value with
  | [] => []
  | c :: value =>
      if is_space c || is_hyphen c then
        if in_run then collapse true value else ascii_of_nat 45 :: collapse true value
      else c :: collapse false value
  end.

Fixpoint lstrip (value : list ascii) : list ascii :=
  match value with
  | [] => []
  | c :: rest => if is_hyphen c || (code c =? 95)%nat then lstrip rest else value
  end.

Definition strip (value : list ascii) : list ascii :=
  rev (lstrip (rev (lstrip value))).

Definition slugify (value : string) (allow_unicode : bool) : string :=
  let value := lower <$> list_ascii_of_string value in
  let value :=
    filter (λ c, is_word allow_unicode c || is_space c || is_hyphen c = true) value in
  string_of_list_ascii (strip (collapse false value)).

End Text.

(** ** Vocabulary of the specification *)

(** Some row of [model] other than the one with key [own] holds [slug] in
    column [name]. *)
Definition held_by_other (model : gmap Z (gmap string string)) (own : option Z)
    (name slug : string) : Prop :=
  ∃ k row, model !! k = Some row ∧ own ≠ Some k ∧ getattr row name = slug.

(** The key the field's probe leaves out: the instance's own, when it is
    truthy. *)
Definition own_pk (instance : Instance) : option Z :=
  if pk_truthy (pk instance) then pk instance else None.

(** The value the [pre_save] receiver has before it looks at uniqueness: the
    slugified source when the field is always updated or the slug is empty
    and a source is configured, else the slug the instance holds. *)
Definition value_before_uniqueness (fld : Fields.SAGESlugField) (instance : Instance)
    : string :=
  let value := getattr (attrs instance) (Fields.attname fld) in
  if Fields.always_update fld
     || (Fields.source_truthy (Fields.populate_from fld) && negb (truthy value))
  then
    let value := Fields.get_prepopulated_value fld instance in
    if truthy value then Fields.slugify fld value else value
  else value.

(** A setting value that the configuration check accepts: a dictionary
    whose keys and values are all strings. *)
Definition well_formed_mapping (mapping : PyValue) : Prop :=
  ∃ items, mapping = PyDict items ∧
           Forall (λ kv, is_str kv.1 = true ∧ is_str kv.2 = true) items.

(** ** Sample data *)

Module Examples.
Import Models.

(** A field with both uniqueness modes switched on. *)
Definition dated_slug : Fields.SAGESlugField :=
  Fields.init (λ value, Text.slugify value false) "slug" None None None
    (Fields.UwName "pub_date") false false true.

Definition news_2024 : gmap Z (gmap string string) :=
  {[ 1%Z := {[ "slug" := "news"; "pub_date" := "2024" ]} ]}.

Definition news_2025 : Instance :=
  {| cls := "article"; pk := None;
     attrs := {[ "slug" := "news"; "pub_date" := "2025" ]} |}.

(** [Model.save], under a short name. *)
Definition write := Mixins.Model_save.

Definition post (key : option Z) (title slug : string) : Instance :=
  {| cls := "post"; pk := key; attrs := {[ "title" := title; "slug" := slug ]} |}.

Definition empty_store : Store := {| tables := ∅; ledger := [] |}.

(** One post, saved once under the title "Hello World". *)
Definition blog : Store :=
  {| tables := {[ "post" := {[ 1%Z := {[ "title" := "Hello World"; "slug" := "hello-world" ]} ]} ]};
     ledger := [] |}.

(** A title cycled A, B, A, and then changed to C, by the instance that
    each save leaves behind. *)
Definition title_cycle : list Instance :=
  [ post None "A" ""; post (Some 1%Z) "B" "a"; post (Some 1%Z) "A" "b";
    post (Some 1%Z) "C" "a" ].

(** Post 1 after a first editor renamed it from "A" to "B". *)
Definition renamed_once : Store :=
  {| tables := {[ "post" := {[ 1%Z := {[ "title" := "B"; "slug" := "b" ]} ]} ]};
     ledger := [ {| old_slug := "a"; new_slug := "b"; content_type := "post";
                    object_id := 1; redirect_type := Primary |} ] |}.

(** The copy of post 1 a second editor loaded while its slug was still
    "a", with the title changed to "C". *)
Definition stale_copy : Instance := post (Some 1%Z) "C" "a".

(** The ledger of the specification's end-to-end example. *)
Definition renamed_ledger : list SlugSwap :=
  [ {| old_slug := "old-name"; new_slug := "new-name"; content_type := "post";
       object_id := 1; redirect_type := Primary |} ].

(** A URL configuration with the one route
    [path("posts/<post_slug>/", ..., name="post-detail")]. *)
Definition reverse (view_name : string) (kwargs : gmap string string) : option string :=
  if decide (view_name = "post-detail") then
    match kwargs !! "post_slug" with
    | Some slug =>
        if decide (size kwargs = 1) then Some ("/posts/" +:+ slug +:+ "/") else None
    | None => None
    end
  else None.

Definition request_for (slug : string) : Middleware.Request :=
  {| Middleware.resolver_match :=
       Some {| Middleware.view_name := "post-detail";
               Middleware.kwargs := {[ "post_slug" := slug ]} |} |}.

Definition not_found : Middleware.Response := Middleware.HttpResponse 404.

(** Post 1 with slug "a", and a ledger in which two rows share the key
    "a". *)
Definition doubled_key : Store :=
  {| tables := {[ "post" := {[ 1%Z := {[ "title" := "A"; "slug" := "a" ]} ]} ]};
     ledger := [ {| old_slug := "a"; new_slug := "x"; content_type := "post";
                    object_id := 1; redirect_type := Primary |};
                 {| old_slug := "a"; new_slug := "y"; content_type := "post";
                    object_id := 1; redirect_type := Temporary |} ] |}.

(** Post 1 under the title "Old Name". *)
Definition old_name : Store :=
  {| tables := {[ "post" := {[ 1%Z := {[ "title" := "Old Name"; "slug" := "old-name" ]} ]} ]};
     ledger := [] |}.

(** Fields: unique together with [pub_date] only; populated from the title
    and globally unique; always updated, with no source. *)
Definition scoped_slug : Fields.SAGESlugField :=
  Fields.init (λ value, Text.slugify value false) "slug" None None None
    (Fields.UwName "pub_date") false false false.

Definition titled_slug : Fields.SAGESlugField :=
  Fields.init (λ value, Text.slugify value false) "slug" (Some (Fields.Attr "title"))
    None None Fields.UwNone false false true.

Definition refreshed_slug : Fields.SAGESlugField :=
  Fields.init (λ value, Text.slugify value false) "slug" None None None
    Fields.UwNone true false false.

(** A not-found request on a route without slug parameters. *)
Definition request_by_id : Middleware.Request :=
  {| Middleware.resolver_match :=
       Some {| Middleware.view_name := "post-by-id";
               Middleware.kwargs := {[ "pk" := "7" ]} |} |}.

(** A post saved under the hand-set key [-1]. *)
Definition negative_key : Store :=
  {| tables := {[ "post" := {[ (-1)%Z := {[ "title" := "A"; "slug" := "a" ]} ]} ]};
     ledger := [] |}.

End Examples.

(** * Properties *)

(** ** Querysets *)

Lemma qs_exists_true qs :
  qs_exists qs = true ↔ ∃ k row, qs !! k = Some row.
Proof.
  unfold qs_exists. rewrite bool_decide_eq_true. split.
  - intros Hne. destruct (map_choose qs Hne) as (k & row & Hk). eauto.
  - intros (k & row & Hk) ->. by rewrite lookup_empty in Hk.
Qed.

Lemma qs_exists_false qs :
  qs_exists qs = false ↔ ∀ k, qs !! k = None.
Proof.
  rewrite <- not_true_iff_false, qs_exists_true. split.
  - intros Hno k. destruct (qs !! k) as [row|] eqn:Hk; [|done].
    exfalso. eauto.
  - intros Hall (k & row & Hk). by rewrite Hall in Hk.
Qed.

Lemma lookup_qs_filter filters qs k row :
  qs_filter filters qs !! k = Some row ↔ qs !! k = Some row ∧ matches filters row.
Proof. unfold qs_filter. by rewrite map_lookup_filter_Some. Qed.

Lemma lookup_qs_exclude p qs k row :
  qs_exclude p qs !! k = Some row ↔ qs !! k = Some row ∧ p ≠ Some k.
Proof.
  destruct p as [j|]; simpl.
  - rewrite lookup_delete_Some. split.
    + intros [Hne Hk]. split; [done|]. congruence.
    + intros [Hk Hne]. split; [|done]. congruence.
  - split; [intros Hk; by split | by intros [Hk _]].
Qed.

Lemma matches_singleton name v row :
  matches {[name := v]} row ↔ getattr row name = v.
Proof. unfold matches. by rewrite map_Forall_singleton. Qed.

Lemma matches_lookup filters row name v :
  matches filters row → filters !! name = Some v → getattr row name = v.
Proof. intros Hm Hl. exact (Hm name v Hl). Qed.

Lemma elem_of_column name qs k row :
  qs !! k = Some row → getattr row name ∈ column name qs.
Proof.
  intros Hk. unfold column. apply list_elem_of_fmap.
  exists (k, row). split; [done|]. by apply elem_of_map_to_list.
Qed.

Lemma length_column name qs : length (column name qs) = size qs.
Proof. unfold column. by rewrite length_fmap, length_map_to_list. Qed.

(** ** The suffix scan

    Both uniqueness loops have the same shape; what is proved here about a
    loop with that shape is used for each of them. *)

Section Scan.
Variable taken : string → bool.
Variables base sep : string.
Variable loop : nat → string → N → option string.
Hypothesis loop_O : ∀ slug index, loop O slug index = None.
Hypothesis loop_S : ∀ fuel slug index,
  loop (S fuel) slug index =
    if taken slug then loop fuel (base +:+ sep +:+ pretty index) (index + 1)%N
    else Some slug.

Lemma candidate_succ (i : N) :
  base +:+ sep +:+ pretty (i + 1)%N = candidate base sep (i + 1).
Proof. unfold candidate. case_decide; [lia | done]. Qed.

Lemma candidate_inj (i j : N) :
  (1 ≤ i)%N → (1 ≤ j)%N → candidate base sep i = candidate base sep j → i = j.
Proof.
  unfold candidate. intros Hi Hj.
  repeat case_decide; try lia.
  intros Heq. apply String.app_inj, String.app_inj in Heq.
  by apply (inj pretty) in Heq.
Qed.

(** What the loop returns is the first free candidate at or after the
    one it was entered with. *)
Lemma loop_sound fuel (i : N) result :
  loop fuel (candidate base sep i) (i + 1)%N = Some result →
  ∃ k : N, (i ≤ k)%N ∧ result = candidate base sep k ∧ taken result = false ∧
    ∀ j : N, (i ≤ j < k)%N → taken (candidate base sep j) = true.
Proof.
  revert i. induction fuel as [|fuel IH]; intros i.
  - by rewrite loop_O.
  - rewrite loop_S. destruct (taken (candidate base sep i)) eqn:Ht.
    + rewrite candidate_succ. intros Hr.
      destruct (IH _ Hr) as (k & Hk & -> & Hfree & Hbelow).
      exists k. repeat split; [lia | done |].
      intros j Hj. destruct (decide (j = i)) as [->|]; [done|].
      apply Hbelow. lia.
    + intros [= <-]. exists i. repeat split; [lia | done |]. intros j. lia.
Qed.

(** A free candidate within reach of the fuel makes the loop return. *)
Lemma loop_returns fuel (i k : N) :
  (i ≤ k)%N → taken (candidate base sep k) = false →
  (N.to_nat k - N.to_nat i < fuel)%nat →
  is_Some (loop fuel (candidate base sep i) (i + 1)%N).
Proof.
  revert i. induction fuel as [|fuel IH]; intros i Hik Hfree Hfuel; [lia|].
  rewrite loop_S. destruct (taken (candidate base sep i)) eqn:Ht; [|eauto].
  assert (i ≠ k) by (intros ->; congruence).
  rewrite candidate_succ. apply IH; [lia | done | lia].
Qed.

(** Pigeonhole: the suffixed candidates are pairwise distinct, so a finite
    set of taken slugs leaves one of the first [n + 1] of them free. *)
Lemma free_candidate (held : list string) :
  (∀ s, taken s = true → s ∈ held) →
  ∃ k : N, (1 ≤ k)%N ∧ (N.to_nat k ≤ length held + 1)%nat ∧
    taken (candidate base sep k) = false.
Proof.
  intros Hheld.
  set (ks := N.of_nat <$> seq 1 (length held + 1)).
  destruct (decide (Forall (λ k, taken (candidate base sep k) = true) ks))
    as [Hall|Hsome].
  - exfalso.
    assert (NoDup (candidate base sep <$> ks)) as Hnd.
    { apply NoDup_fmap_2_strong.
      - intros x y Hx Hy. apply candidate_inj.
        + apply list_elem_of_fmap in Hx as (n & -> & Hn%elem_of_seq). lia.
        + apply list_elem_of_fmap in Hy as (n & -> & Hn%elem_of_seq). lia.
      - apply NoDup_fmap_2; [apply _ | apply NoDup_seq]. }
    assert (candidate base sep <$> ks ⊆+ held) as Hsub.
    { apply NoDup_submseteq; [done|]. intros s Hs.
      apply list_elem_of_fmap in Hs as (k & -> & Hk).
      apply Hheld. rewrite Forall_forall in Hall. by apply Hall. }
    apply submseteq_length in Hsub.
    unfold ks in Hsub. rewrite !length_fmap, length_seq in Hsub. lia.
  - apply not_Forall_Exists in Hsome; [|apply _].
    apply Exists_exists in Hsome as (k & Hk & Hfree). simpl in Hfree.
    apply list_elem_of_fmap in Hk as (n & -> & Hn%elem_of_seq).
    exists (N.of_nat n). repeat split; [lia | lia |].
    by destruct (taken (candidate base sep (N.of_nat n))).
Qed.

(** Entered with the base slug and counter [1], the loop returns, and
    returns what the specification asks for. *)
Lemma loop_resolves (held : list string) fuel :
  (∀ s, taken s = true → s ∈ held) →
  (length held + 2 ≤ fuel)%nat →
  ∃ result, loop fuel base 1%N = Some result ∧ resolves taken base sep result.
Proof.
  intros Hheld Hfuel.
  destruct (free_candidate held Hheld) as (k & Hk1 & Hk & Hfree).
  assert (is_Some (loop fuel (candidate base sep 0) (0 + 1)%N)) as [result Hr].
  { apply (loop_returns fuel 0 k); [lia | done | lia]. }
  exists result. split; [exact Hr|].
  destruct (loop_sound _ _ _ Hr) as (m & _ & -> & Hm & Hbelow).
  unfold resolves. destruct (decide (m = 0%N)) as [->|Hm0].
  - left. by split.
  - right. split; [apply (Hbelow 0%N); lia|].
    exists m. unfold candidate in Hm |- *.
    rewrite decide_False in Hm |- * by done.
    repeat split; [lia | done |].
    intros j Hj. specialize (Hbelow j). unfold candidate in Hbelow.
    rewrite decide_False in Hbelow by lia. apply Hbelow. lia.
Qed.

End Scan.

(** ** fields.py: the existence probe and the uniqueness loop *)

Lemma own_pk_exclude instance qs :
  (if pk_truthy (pk instance) then qs_exclude (pk instance) qs else qs)
  = qs_exclude (own_pk instance) qs.
Proof. unfold own_pk. by destruct (pk_truthy (pk instance)). Qed.

(** In global mode the probe asks whether another row holds the slug. *)
Lemma is_slug_exists_unique fld model slug instance :
  Fields.unique fld = true →
  Fields.is_slug_exists fld model slug instance = true ↔
  held_by_other model (own_pk instance) (Fields.attname fld) slug.
Proof.
  intros Hu. unfold Fields.is_slug_exists, held_by_other.
  rewrite Hu, own_pk_exclude, qs_exists_true. split.
  - intros (k & row & Hk). apply lookup_qs_filter in Hk as [Hk Hm].
    apply lookup_qs_exclude in Hk as [Hk Hne].
    apply matches_singleton in Hm. eauto.
  - intros (k & row & Hk & Hne & Hslug). exists k, row.
    apply lookup_qs_filter. split.
    + by apply lookup_qs_exclude.
    + by apply matches_singleton.
Qed.

(** Whatever the mode, a slug the probe reports is in the slug column. *)
Lemma is_slug_exists_held fld model slug instance :
  Fields.is_slug_exists fld model slug instance = true →
  slug ∈ column (Fields.attname fld) model.
Proof.
  unfold Fields.is_slug_exists. rewrite own_pk_exclude.
  assert (∀ filters, filters !! Fields.attname fld = Some slug →
    qs_exists (qs_filter filters (qs_exclude (own_pk instance) model)) = true →
    slug ∈ column (Fields.attname fld) model) as Hany.
  { intros filters Hf (k & row & Hk)%qs_exists_true.
    apply lookup_qs_filter in Hk as [Hk Hm].
    apply lookup_qs_exclude in Hk as [Hk _].
    rewrite <- (matches_lookup _ _ _ _ Hm Hf). by eapply elem_of_column. }
  destruct (Fields.unique fld).
  - apply Hany. apply lookup_singleton_eq.
  - case_bool_decide; [|done]. apply Hany. apply lookup_insert_eq.
Qed.

Lemma lookup_sibling_filters (g : string → string) (names : list string) name :
  (list_to_map ((λ field, (field, g field)) <$> names) : gmap string string) !! name
  = if decide (name ∈ names) then Some (g name) else None.
Proof.
  induction names as [|f names IH].
  - destruct (decide (name ∈ [])) as [Hin|_]; [by apply elem_of_nil in Hin|].
    apply lookup_empty.
  - rewrite fmap_cons, list_to_map_cons, lookup_insert, IH.
    destruct (decide (f = name)) as [->|Hne].
    + by rewrite (decide_True (P := name ∈ name :: names)) by apply list_elem_of_here.
    + destruct (decide (name ∈ names)) as [Hin|Hout].
      * by rewrite (decide_True (P := name ∈ f :: names))
          by (by apply list_elem_of_further).
      * rewrite (decide_False (P := name ∈ f :: names)); [done|].
        intros [Heq|Hin]%elem_of_cons; [by apply Hne | by apply Hout].
Qed.

Lemma matches_partial_filters fld slug instance row :
  matches (Fields.partial_filters fld slug instance) row ↔
  getattr row (Fields.attname fld) = slug ∧
  ∀ field, field ∈ Fields.unique_with fld → field ≠ Fields.attname fld →
           getattr row field = getattr (attrs instance) field.
Proof.
  unfold matches, Fields.partial_filters, map_Forall. split.
  - intros Hall. split.
    + apply Hall. apply lookup_insert_eq.
    + intros field Hin Hne. apply Hall. rewrite lookup_insert_ne by done.
      rewrite lookup_sibling_filters. by rewrite decide_True.
  - intros [Hslug Hsib] name v. rewrite lookup_insert_Some, lookup_sibling_filters.
    intros [[<- <-]|[Hne Hv]]; [done|].
    destruct (decide (name ∈ Fields.unique_with fld)) as [Hin|]; [|done].
    injection Hv as <-. apply Hsib; [done | by intros ->].
Qed.

(** In partial mode the probe asks for another row with the slug and with
    the instance's value in every sibling field. *)
Lemma is_slug_exists_partial fld model slug instance :
  Fields.unique fld = false → Fields.unique_with fld ≠ [] →
  Fields.is_slug_exists fld model slug instance = true ↔
  ∃ k row, model !! k = Some row ∧ own_pk instance ≠ Some k ∧
           getattr row (Fields.attname fld) = slug ∧
           ∀ field, field ∈ Fields.unique_with fld → field ≠ Fields.attname fld →
                    getattr row field = getattr (attrs instance) field.
Proof.
  intros Hu Hw. unfold Fields.is_slug_exists.
  rewrite Hu, own_pk_exclude, bool_decide_eq_true_2 by done.
  rewrite qs_exists_true. split.
  - intros (k & row & Hk). apply lookup_qs_filter in Hk as [Hk Hm].
    apply lookup_qs_exclude in Hk as [Hk Hne].
    apply matches_partial_filters in Hm as [Hslug Hsib]. by exists k, row.
  - intros (k & row & Hk & Hne & Hslug & Hsib). exists k, row.
    apply lookup_qs_filter. split.
    + by apply lookup_qs_exclude.
    + by apply matches_partial_filters.
Qed.

Lemma is_slug_exists_unconstrained fld model slug instance :
  Fields.unique fld = false → Fields.unique_with fld = [] →
  Fields.is_slug_exists fld model slug instance = false.
Proof.
  intros Hu Hw. unfold Fields.is_slug_exists. rewrite Hu, Hw.
  by rewrite bool_decide_eq_false_2 by (intros Hne; by apply Hne).
Qed.

Lemma fields_loop_resolves fld model instance base :
  ∃ result,
    Fields.generate_unique_slug fld model instance base = Some result ∧
    resolves (λ s, Fields.is_slug_exists fld model s instance) base (Fields.sep fld) result.
Proof.
  unfold Fields.generate_unique_slug.
  apply (loop_resolves (λ s, Fields.is_slug_exists fld model s instance) base
           (Fields.sep fld) (Fields.unique_loop fld model instance base)
           ltac:(done) ltac:(done) (column (Fields.attname fld) model)).
  - intros s. apply is_slug_exists_held.
  - rewrite length_column. lia.
Qed.

(** ** mixins.py: the probe and the uniqueness loop *)

Lemma slug_taken_true st self slug :
  Mixins.slug_taken st self slug = true ↔
  held_by_other (Mixins.objects st self) (pk self) "slug" slug.
Proof.
  unfold Mixins.slug_taken, held_by_other. rewrite qs_exists_true. split.
  - intros (k & row & Hk). apply lookup_qs_exclude in Hk as [Hk Hne].
    apply lookup_qs_filter in Hk as [Hk Hm]. apply matches_singleton in Hm. eauto.
  - intros (k & row & Hk & Hne & Hslug). exists k, row.
    apply lookup_qs_exclude. split; [|done].
    apply lookup_qs_filter. split; [done|]. by apply matches_singleton.
Qed.

Lemma slug_taken_held st self slug :
  Mixins.slug_taken st self slug = true → slug ∈ column "slug" (Mixins.objects st self).
Proof.
  intros (k & row & Hk & _ & <-)%slug_taken_true. by eapply elem_of_column.
Qed.

Lemma mixin_loop_resolves slugify st self :
  ∃ result,
    Mixins.generate_unique_slug slugify st self = Some result ∧
    resolves (Mixins.slug_taken st self)
      (Mixins.generate_new_slug_base slugify self) "-" result.
Proof.
  unfold Mixins.generate_unique_slug.
  apply (loop_resolves (Mixins.slug_taken st self)
           (Mixins.generate_new_slug_base slugify self) "-"
           (Mixins.unique_loop st self (Mixins.generate_new_slug_base slugify self))
           ltac:(done) ltac:(done) (column "slug" (Mixins.objects st self))).
  - intros s. apply slug_taken_held.
  - rewrite length_column. lia.
Qed.

Lemma resolves_first_suffix taken base sep result :
  resolves taken base sep result →
  taken base = true → taken (base +:+ sep +:+ "1") = false →
  result = base +:+ sep +:+ "1".
Proof.
  intros [[Hfree _]|(_ & k & Hk & -> & _ & Hbelow)] Hbase Hone; [congruence|].
  destruct (decide (k = 1%N)) as [->|Hne]; [done|].
  specialize (Hbelow 1%N). change (pretty 1%N) with "1" in Hbelow.
  rewrite Hbelow in Hone by lia. done.
Qed.


Lemma resolves_free taken base sep result :
  resolves taken base sep result → taken result = false.
Proof. by intros [[? ->]|(_ & k & _ & _ & ? & _)]. Qed.

(** C5. Uniqueness resolution, in the field and in the mixin, returns for a
    non-empty base slug: the base itself when no other row in scope holds it,
    and otherwise the base, the separator and the smallest integer from 1 on
    whose suffixed slug no other row in scope holds; so [base-1] when the
    base is taken and [base-1] is not. The probes mean what the claim says:
    the mixin's, and the field's in global mode, report a slug exactly when
    a row other than the instance's own holds it; in partial mode the row
    must also agree with the instance on every sibling field; with neither
    mode nothing is in scope. *)
Theorem uniqueness_resolution (base : string) :
  base ≠ "" →
  (∀ fld model instance,
     (∃ result,
        Fields.generate_unique_slug fld model instance base = Some result ∧
        resolves (λ s, Fields.is_slug_exists fld model s instance)
          base (Fields.sep fld) result ∧
        (Fields.is_slug_exists fld model base instance = true →
         Fields.is_slug_exists fld model (base +:+ Fields.sep fld +:+ "1") instance = false →
         result = base +:+ Fields.sep fld +:+ "1")) ∧
     (Fields.unique fld = true →
      ∀ s, Fields.is_slug_exists fld model s instance = true ↔
           held_by_other model (own_pk instance) (Fields.attname fld) s) ∧
     (Fields.unique fld = false → Fields.unique_with fld ≠ [] →
      ∀ s, Fields.is_slug_exists fld model s instance = true ↔
           ∃ k row, model !! k = Some row ∧ own_pk instance ≠ Some k ∧
                    getattr row (Fields.attname fld) = s ∧
                    ∀ field, field ∈ Fields.unique_with fld →
                             field ≠ Fields.attname fld →
                             getattr row field = getattr (attrs instance) field) ∧
     (Fields.unique fld = false → Fields.unique_with fld = [] →
      ∀ s, Fields.is_slug_exists fld model s instance = false)) ∧
  (∀ slugify st self,
     Mixins.generate_new_slug_base slugify self = base →
     (∃ result,
        Mixins.generate_unique_slug slugify st self = Some result ∧
        resolves (Mixins.slug_taken st self) base "-" result ∧
        (Mixins.slug_taken st self base = true →
         Mixins.slug_taken st self (base +:+ "-" +:+ "1") = false →
         result = base +:+ "-" +:+ "1")) ∧
     (∀ s, Mixins.slug_taken st self s = true ↔
           held_by_other (Mixins.objects st self) (pk self) "slug" s)).
Proof.
  intros _. split.
  - intros fld model instance. split; [|split; [|split]].
    + destruct (fields_loop_resolves fld model instance base) as (result & Hr & Hres).
      exists result. repeat split; [done | done |].
      by apply (resolves_first_suffix _ _ _ _ Hres).
    + intros Hu s. by apply is_slug_exists_unique.
    + intros Hu Hw s. by apply is_slug_exists_partial.
    + intros Hu Hw s. by apply is_slug_exists_unconstrained.
  - intros slugify st self <-. split.
    + destruct (mixin_loop_resolves slugify st self) as (result & Hr & Hres).
      exists result. repeat split; [done | done |].
      by apply (resolves_first_suffix _ _ _ _ Hres).
    + intros s. apply slug_taken_true.
Qed.

(** C10. A field with [unique=True] and a non-empty [unique_with] probes on
    the slug value alone: the probe is the one of the same field without
    [unique_with], it does not depend on the instance's other attributes, and
    a row of another key with the same slug makes it report a collision and
    makes the uniqueness loop move off the slug, whatever the sibling
    values. *)
Theorem unique_takes_precedence fld model slug instance :
  Fields.unique fld = true → Fields.unique_with fld ≠ [] →
  Fields.is_slug_exists fld model slug instance =
    qs_exists (qs_filter {[Fields.attname fld := slug]}
                 (qs_exclude (own_pk instance) model)) ∧
  Fields.is_slug_exists fld model slug instance =
    Fields.is_slug_exists
      {| Fields.attname := Fields.attname fld;
         Fields.populate_from := Fields.populate_from fld;
         Fields.sep := Fields.sep fld;
         Fields.slugify := Fields.slugify fld;
         Fields.unique_with := [];
         Fields.always_update := Fields.always_update fld;
         Fields.allow_unicode := Fields.allow_unicode fld;
         Fields.unique := true |} model slug instance ∧
  (∀ other, pk other = pk instance →
     Fields.is_slug_exists fld model slug other =
     Fields.is_slug_exists fld model slug instance) ∧
  (∀ k row, model !! k = Some row → pk instance ≠ Some k →
     getattr row (Fields.attname fld) = slug →
     Fields.is_slug_exists fld model slug instance = true ∧
     ∃ result, Fields.generate_unique_slug fld model instance slug = Some result ∧
               result ≠ slug).
Proof.
  intros Hu _. repeat split.
  - unfold Fields.is_slug_exists. by rewrite Hu, own_pk_exclude.
  - unfold Fields.is_slug_exists. simpl. by rewrite Hu.
  - intros other Hpk. unfold Fields.is_slug_exists. by rewrite Hu, Hpk.
  - apply is_slug_exists_unique; [done|]. exists k, row. repeat split; [done| |done].
    unfold own_pk. destruct (pk_truthy (pk instance)); [done | discriminate].
  - assert (Fields.is_slug_exists fld model slug instance = true) as Htaken.
    { apply is_slug_exists_unique; [done|]. exists k, row. repeat split; [done| |done].
      unfold own_pk. destruct (pk_truthy (pk instance)); [done | discriminate]. }
    destruct (fields_loop_resolves fld model instance slug) as (result & Hr & Hres).
    exists result. split; [done|]. intros ->.
    apply resolves_free in Hres. simpl in Hres. congruence.
Qed.

(** ** models.py: the ledger upsert *)

Import Models.

Lemma filter_key_nil (rows : list SlugSwap) key :
  filter (λ r, old_slug r = key) rows = [] ↔ key ∉ old_slug <$> rows.
Proof.
  induction rows as [|r rows IH]; simpl.
  - split; [intros _; apply not_elem_of_nil | done].
  - rewrite filter_cons, not_elem_of_cons. case_decide as Hr.
    + split; [done | intros [Hne _]; by destruct Hne].
    + rewrite IH. split; [intros ?; split; [by intros ->|done] | by intros [_ ?]].
Qed.

Lemma filter_key_single (rows : list SlugSwap) row :
  NoDup (old_slug <$> rows) → row ∈ rows →
  filter (λ r, old_slug r = old_slug row) rows = [row].
Proof.
  induction rows as [|r rows IH]; simpl; intros Hnd Hin.
  - by apply elem_of_nil in Hin.
  - apply NoDup_cons in Hnd as [Hfresh Hnd]. rewrite filter_cons.
    apply elem_of_cons in Hin as [->|Hin].
    + rewrite decide_True by done. f_equal. by apply filter_key_nil.
    + rewrite decide_False; [by apply IH|].
      intros Heq. apply Hfresh. rewrite Heq. by apply list_elem_of_fmap_2.
Qed.


(** What an upsert that returns has done: appended a Primary row under a
    key that no row held, or assigned the defaults to the one row of the
    key. *)
Lemma update_or_create_shape rows key new ct oid rows' :
  update_or_create rows key new ct oid = Returns rows' →
  (filter (λ r, old_slug r = key) rows = [] ∧
   rows' = rows ++ [ {| old_slug := key; new_slug := new; content_type := ct;
                        object_id := oid; redirect_type := Primary |} ]) ∨
  (∃ r, filter (λ r, old_slug r = key) rows = [r] ∧
        rows' = (λ r, if decide (old_slug r = key)
                      then {| old_slug := old_slug r; new_slug := new; content_type := ct;
                              object_id := oid; redirect_type := redirect_type r |}
                      else r) <$> rows).
Proof.
  unfold update_or_create.
  destruct (filter (λ r, old_slug r = key) rows) as [|r [|r' found]] eqn:Hf;
    [destruct (decide (oid < 0)%Z).. | ]; intros [= <-]; [by left | right; by exists r].
Qed.




(** ** mixins.py: change detection and the ledger *)

Lemma objects_setattr st self name value :
  Mixins.objects st (setattr self name value) = Mixins.objects st self.
Proof. done. Qed.

Lemma check_slug_changed_true st self new_slug :
  Mixins.check_slug_changed st self new_slug = true ↔
  ∃ k row, pk self = Some k ∧ k ≠ 0%Z ∧ Mixins.objects st self !! k = Some row ∧
           getattr row "slug" ≠ new_slug.
Proof.
  unfold Mixins.check_slug_changed. destruct (pk self) as [k|]; simpl.
  - case_bool_decide as Hk; simpl.
    + destruct (Mixins.objects st self !! k) as [row|] eqn:Hrow.
      * rewrite bool_decide_eq_true. split.
        -- intros Hne. by exists k, row.
        -- intros (k' & row' & Hk' & _ & Hrow' & Hne).
           injection Hk' as <-. rewrite Hrow in Hrow'. by injection Hrow' as <-.
      * split; [done|]. intros (k' & row' & Hk' & _ & Hrow' & _).
        injection Hk' as <-. by rewrite Hrow in Hrow'.
    + split; [done|]. intros (k' & row' & Hk' & Hne & _).
      injection Hk' as <-. done.
  - split; [done|]. by intros (k' & row' & ? & _).
Qed.

Lemma handle_slug_swap_logic_tables st self old new :
  tables (Mixins.handle_slug_swap_logic st self old new).1 = tables st.
Proof.
  unfold Mixins.handle_slug_swap_logic.
  destruct (pk self) as [k|]; [|done].
  destruct (pk_truthy (Some k)); [|done].
  by destruct (update_or_create _ _ _ _ _).
Qed.


Section SaveAnyWrite.
Variable slugify : string → bool → string.
Variable super_save :
  gmap Z (gmap string string) → Instance →
  Outcome (gmap Z (gmap string string) * Instance).



Lemma save_unchanged_ledger st self :
  (∀ new_slug, Mixins.generate_unique_slug slugify st self = Some new_slug →
               Mixins.check_slug_changed st self new_slug = false) →
  ledger (Mixins.save slugify super_save st self).1.1 = ledger st.
Proof.
  intros Hsame. unfold Mixins.save.
  destruct (Mixins.generate_unique_slug slugify st self) as [new_slug|]; [|done].
  rewrite (Hsame new_slug eq_refl).
  by destruct (super_save _ _) as [[model self']| |].
Qed.

End SaveAnyWrite.

(** C6. A save whose resolved slug equals the slug persisted for the
    instance's key, and a save of an instance with no persisted row (no key,
    or a key the table does not hold), leave the ledger as it was, whatever
    else the save does. *)
Theorem unchanged_slug_keeps_ledger slugify super_save st self :
  (pk self ≫= (λ k, Mixins.objects st self !! k)) = None ∨
  (∃ k row, pk self = Some k ∧ Mixins.objects st self !! k = Some row ∧
            Mixins.generate_unique_slug slugify st self = Some (getattr row "slug")) →
  ledger (Mixins.save slugify super_save st self).1.1 = ledger st.
Proof.
  intros Hcase. apply save_unchanged_ledger. intros new_slug Hnew.
  destruct (Mixins.check_slug_changed st self new_slug) eqn:Hchanged; [|done].
  exfalso. apply check_slug_changed_true in Hchanged as (k & row & Hpk & _ & Hrow & Hne).
  destruct Hcase as [Hnone|(k' & row' & Hpk' & Hrow' & Hsame)].
  - rewrite Hpk in Hnone. simpl in Hnone. by rewrite Hrow in Hnone.
  - rewrite Hpk in Hpk'. injection Hpk' as <-.
    rewrite Hrow in Hrow'. injection Hrow' as <-.
    rewrite Hnew in Hsame. by injection Hsame.
Qed.

(** C8. When the framework's write raises, the save raises the same
    exception and the store, the ledger with it, is the one before the save:
    the upsert sits after the write. *)
Theorem failed_write_keeps_ledger slugify super_save st self new_slug e :
  Mixins.generate_unique_slug slugify st self = Some new_slug →
  super_save (Mixins.objects st self) (setattr self "slug" new_slug) = Raises e →
  Mixins.save slugify super_save st self = (st, setattr self "slug" new_slug, Raises e) ∧
  ledger (Mixins.save slugify super_save st self).1.1 = ledger st.
Proof.
  intros Hnew Hwrite. unfold Mixins.save. rewrite Hnew.
  rewrite objects_setattr, Hwrite. by split.
Qed.

(** ** The framework's write *)

Lemma getattr_insert_eq a name v : getattr (<[name := v]> a) name = v.
Proof. unfold getattr. by rewrite lookup_insert_eq. Qed.

Lemma getattr_insert_ne a name name' v :
  name ≠ name' → getattr (<[name := v]> a) name' = getattr a name'.
Proof. intros Hne. unfold getattr. by rewrite lookup_insert_ne. Qed.

Lemma setattr_setattr self name v w :
  setattr (setattr self name v) name w = setattr self name w.
Proof. unfold setattr. simpl. by rewrite insert_insert_eq. Qed.

Lemma bool_eq_iff (a b : bool) : (a = true ↔ b = true) → a = b.
Proof. destruct a, b; intros [H1 H2]; try done; [by rewrite H1 | by rewrite H2]. Qed.

Lemma foldr_max_bound (keys : list Z) k : k ∈ keys → (k ≤ foldr Z.max 0 keys)%Z.
Proof.
  induction keys as [|j keys IH]; simpl.
  - intros Hin. by apply elem_of_nil in Hin.
  - intros [->|Hin]%elem_of_cons; [lia|]. specialize (IH Hin). lia.
Qed.

Lemma next_pk_positive model : (1 ≤ Mixins.next_pk model)%Z.
Proof.
  unfold Mixins.next_pk.
  assert (0 ≤ foldr Z.max 0 (map_to_list model).*1)%Z; [|lia].
  induction ((map_to_list model).*1) as [|j keys IH]; simpl; lia.
Qed.

Lemma next_pk_fresh model : model !! Mixins.next_pk model = None.
Proof.
  destruct (model !! Mixins.next_pk model) as [row|] eqn:Hrow; [|done].
  exfalso. apply elem_of_map_to_list in Hrow.
  apply (list_elem_of_fmap_2 fst) in Hrow. simpl in Hrow.
  apply foldr_max_bound in Hrow. unfold Mixins.next_pk in Hrow. lia.
Qed.

(** The rows a probe sees beside the instance's own are the same before and
    after that row is written, be it updated or inserted under a fresh
    key. *)
Lemma probe_after_write (model : gmap Z (gmap string string)) p k row filters :
  p = Some k ∨ (p = None ∧ model !! k = None) →
  qs_exclude (Some k) (qs_filter filters (<[k := row]> model))
  = qs_exclude p (qs_filter filters model).
Proof.
  intros Hp. apply map_eq. intros i. apply option_eq. intros r.
  rewrite !lookup_qs_exclude, !lookup_qs_filter, lookup_insert_Some. split.
  - intros [[[[-> _]|[_ Hi]] Hm] Hne]; [done|].
    repeat split; [done | done |].
    destruct Hp as [->|[-> _]]; done.
  - intros [[Hi Hm] Hne]. repeat split; [|done|].
    + right. split; [|done]. intros <-.
      destruct Hp as [->|[_ Hnone]]; [done | congruence].
    + intros [= <-]. destruct Hp as [->|[_ Hnone]]; [done | congruence].
Qed.

(** The probe of the mixin's slug field and the mixin's own probe agree,
    unless the key is [0]: the mixin leaves row [0] out, the field does
    not. *)
Lemma field_probe_is_mixin_probe slugify st self slug :
  pk self ≠ Some 0%Z →
  Fields.is_slug_exists (Mixins.slug_field slugify) (Mixins.objects st self) slug self
  = Mixins.slug_taken st self slug.
Proof.
  intros Hpk. apply bool_eq_iff.
  rewrite is_slug_exists_unique by done. rewrite slug_taken_true.
  replace (own_pk self) with (pk self); [done|].
  unfold own_pk. destruct (pk self) as [k|]; simpl; [|done].
  case_bool_decide; [done | congruence].
Qed.

Lemma resolves_ext taken taken' base sep result :
  (∀ s, taken s = taken' s) →
  resolves taken base sep result → resolves taken' base sep result.
Proof.
  intros Hext [[Hfree ->]|(Hbase & k & Hk & -> & Hfree & Hbelow)].
  - left. by rewrite <- Hext.
  - right. rewrite <- Hext. split; [done|]. exists k.
    repeat split; [done | by rewrite <- Hext |].
    intros j Hj. rewrite <- Hext. by apply Hbelow.
Qed.

Lemma resolves_unique taken base sep r1 r2 :
  resolves taken base sep r1 → resolves taken base sep r2 → r1 = r2.
Proof.
  intros [[Hf1 ->]|(Hb1 & k1 & Hk1 & -> & Hf1 & Hbelow1)]
         [[Hf2 ->]|(Hb2 & k2 & Hk2 & -> & Hf2 & Hbelow2)];
    [done | congruence | congruence |].
  destruct (decide (k1 = k2)) as [->|Hne]; [done|]. exfalso.
  destruct (decide (k1 < k2)%N).
  - rewrite (Hbelow2 k1) in Hf1 by lia. done.
  - rewrite (Hbelow1 k2) in Hf2 by lia. done.
Qed.

Lemma resolves_base_free taken base sep result :
  resolves taken base sep result → taken base = false → result = base.
Proof. intros [[_ ->]|[Hb _]] Hfree; [done | congruence]. Qed.

Lemma db_write_inv model self model1 self1 :
  Mixins.db_write model self = Returns (model1, self1) →
  Mixins.violates_unique model self = false ∧
  ∃ k, (pk self = Some k ∨ (pk self = None ∧ k = Mixins.next_pk model)) ∧
       model1 = <[k := attrs self]> model ∧
       self1 = {| cls := cls self; pk := Some k; attrs := attrs self |}.
Proof.
  unfold Mixins.db_write.
  destruct (Mixins.violates_unique model self); [done|].
  destruct self as [c [k|] a]; simpl; intros [= <- <-]; (split; [done|]).
  - exists k. split; [by left | done].
  - exists (Mixins.next_pk model). split; [by right | done].
Qed.

(** What a save that returns has done. *)
Lemma save_returns_inv slugify st self st1 self1 :
  Mixins.save slugify Mixins.Model_save st self = (st1, self1, Returns ()) →
  ∃ s k,
    Mixins.generate_unique_slug slugify st self = Some s ∧
    resolves (Mixins.slug_taken st self) (Mixins.generate_new_slug_base slugify self) "-" s ∧
    (pk self = Some k ∨ (pk self = None ∧ k = Mixins.next_pk (Mixins.objects st self))) ∧
    Mixins.violates_unique (Mixins.objects st self) (setattr self "slug" s) = false ∧
    self1 = {| cls := cls self; pk := Some k; attrs := <["slug" := s]> (attrs self) |} ∧
    tables st1 =
      <[cls self := <[k := <["slug" := s]> (attrs self)]> (Mixins.objects st self)]> (tables st) ∧
    ((Mixins.check_slug_changed st self s = false ∧ ledger st1 = ledger st) ∨
     (Mixins.check_slug_changed st self s = true ∧
      update_or_create (ledger st) (getattr (attrs self) "slug") s (cls self) k
        = Returns (ledger st1))).
Proof.
  unfold Mixins.save.
  destruct (mixin_loop_resolves slugify st self) as (s & Hs & Hres). rewrite Hs.
  rewrite objects_setattr. unfold Mixins.Model_save.
  destruct (Mixins.db_write _ _) as [[model1 self']| |] eqn:Hw; [|done..].
  apply db_write_inv in Hw as (Hviol & k & Hk & -> & ->). simpl in *.
  intros Hsave. exists s, k.
  destruct (Mixins.check_slug_changed st self s) eqn:Hchanged.
  - unfold Mixins.handle_slug_swap_logic in Hsave. simpl in Hsave.
    apply check_slug_changed_true in Hchanged as Hc.
    destruct Hc as (k' & row & Hpk & Hk' & _).
    assert (k = k') as <-.
    { destruct Hk as [Hk|[Hk _]]; rewrite Hpk in Hk; [by injection Hk | done]. }
    rewrite bool_decide_eq_true_2 in Hsave by done.
    destruct (update_or_create _ _ _ _ _) as [rows'| |] eqn:Hu; [|done..].
    injection Hsave as <- <-. simpl. repeat split; try done. by right.
  - injection Hsave as <- <-. simpl. repeat split; try done. by left.
Qed.


(** C7. Saving again an entity that a save has just persisted, its title
    untouched, returns, changes neither the store nor the instance, and so
    yields the same slug and no new ledger row: the probe leaves the
    entity's own row out, whatever its key. *)
Theorem resave_is_idempotent slugify st self st1 self1 :
  Mixins.save slugify Mixins.Model_save st self = (st1, self1, Returns ()) →
  ∃ st2 self2,
    Mixins.save slugify Mixins.Model_save st1 self1 = (st2, self2, Returns ()) ∧
    getattr (attrs self2) "slug" = getattr (attrs self1) "slug" ∧
    ledger st2 = ledger st1 ∧
    st2 = st1 ∧ self2 = self1.
Proof.
  intros Hsave.
  destruct (save_returns_inv _ _ _ _ _ Hsave)
    as (s & k & Hs & Hres & Hk & Hviol & -> & Htables & _).
  set (attrs1 := <["slug" := s]> (attrs self)) in *.
  set (self1 := {| cls := cls self; pk := Some k; attrs := attrs1 |}).
  set (model1 := <[k := attrs1]> (Mixins.objects st self)) in *.
  assert (Mixins.objects st1 self1 = model1) as Hobjects.
  { unfold Mixins.objects. simpl. by rewrite Htables, lookup_insert_eq. }
  assert (pk self = Some k ∨ (pk self = None ∧ Mixins.objects st self !! k = None))
    as Hrow.
  { destruct Hk as [Hk|[Hnone ->]]; [by left | right]. split; [done|].
    apply next_pk_fresh. }
  assert (∀ x, Mixins.slug_taken st1 self1 x = Mixins.slug_taken st self x) as Hprobe.
  { intros x. unfold Mixins.slug_taken. rewrite Hobjects.
    change (pk self1) with (Some k). unfold model1.
    by rewrite (probe_after_write _ (pk self) k attrs1 _ Hrow). }
  assert (Mixins.generate_new_slug_base slugify self1
          = Mixins.generate_new_slug_base slugify self) as Hbase.
  { unfold Mixins.generate_new_slug_base, Mixins.get_slug_source_field. simpl.
    unfold attrs1. by rewrite getattr_insert_ne. }
  assert (setattr self1 "slug" s = self1) as Hset.
  { unfold setattr, self1, attrs1. simpl. by rewrite insert_insert_eq. }
  exists st1, self1.
  assert (Mixins.save slugify Mixins.Model_save st1 self1
          = (st1, self1, Returns ())) as Hagain; [|by rewrite Hagain].
  unfold Mixins.save.
  destruct (mixin_loop_resolves slugify st1 self1) as (s' & Hs' & Hres').
  rewrite Hbase in Hres'.
  apply (resolves_ext _ (Mixins.slug_taken st self)) in Hres'; [|exact Hprobe].
  rewrite (resolves_unique _ _ _ _ _ Hres' Hres) in Hs'. rewrite Hs'.
  assert (Mixins.check_slug_changed st1 self1 s = false) as ->.
  { destruct (Mixins.check_slug_changed st1 self1 s) eqn:Hc; [|done].
    apply check_slug_changed_true in Hc as (k' & row & Hk' & _ & Hrow' & Hne).
    simpl in Hk'. injection Hk' as <-.
    rewrite Hobjects in Hrow'. unfold model1 in Hrow'.
    rewrite lookup_insert_eq in Hrow'. injection Hrow' as <-.
    unfold attrs1 in Hne. by rewrite getattr_insert_eq in Hne. }
  rewrite objects_setattr, Hobjects, Hset. unfold Mixins.Model_save.
  assert (Mixins.violates_unique model1 self1 = false) as Hviol1.
  { unfold Mixins.violates_unique in Hviol |- *.
    change (pk self1) with (Some k). change (attrs self1) with attrs1.
    unfold model1. by rewrite !(probe_after_write _ (pk self) k attrs1 _ Hrow). }
  unfold Mixins.db_write. rewrite Hviol1. simpl.
  unfold model1 at 1. rewrite insert_insert_eq. fold model1.
  rewrite Htables, insert_insert_eq, <- Htables.
  by destruct st1.
Qed.


(** ** The save hook on concrete stores *)

Import Examples.

(** C3. The ledger row is keyed on the slug the instance holds in memory.
    Post 1 is persisted with slug "b"; a copy loaded while the slug was "a"
    is saved with a new title. The change is detected against the persisted
    "b", but the row written is the one of key "a": no row is keyed on
    "b". *)
Theorem ledger_key_is_in_memory_slug :
  (Mixins.objects renamed_once stale_copy !! 1%Z) ≫= (λ row, row !! "slug") = Some "b" ∧
  (Mixins.save Text.slugify write renamed_once stale_copy).2 = Returns () ∧
  ledger (Mixins.save Text.slugify write renamed_once stale_copy).1.1 =
    [ {| old_slug := "a"; new_slug := "c"; content_type := "post";
         object_id := 1; redirect_type := Primary |} ].
Proof. vm_compute. done. Qed.

(** For an instance whose in-memory slug is the persisted one, the key is
    the persisted slug. *)
Lemma ledger_key_when_in_sync slugify st self st1 self1 k row :
  Mixins.save slugify Mixins.Model_save st self = (st1, self1, Returns ()) →
  pk self = Some k → Mixins.objects st self !! k = Some row →
  getattr (attrs self) "slug" = getattr row "slug" →
  ledger st1 = ledger st ∨
  ∃ s, Mixins.generate_unique_slug slugify st self = Some s ∧
       getattr row "slug" ≠ s ∧
       update_or_create (ledger st) (getattr row "slug") s (cls self) k
         = Returns (ledger st1).
Proof.
  intros Hsave Hpk Hrow Hsync.
  destruct (save_returns_inv _ _ _ _ _ Hsave)
    as (s & k' & Hs & _ & Hk & _ & _ & _ & [[_ Hl]|[Hc Hu]]); [by left|].
  right. exists s. split; [done|].
  destruct Hk as [Hk|[Hk _]]; rewrite Hpk in Hk; [injection Hk as <- | done].
  apply check_slug_changed_true in Hc as (k' & row' & Hk' & _ & Hrow' & Hne).
  rewrite Hpk in Hk'. injection Hk' as <-. rewrite Hrow in Hrow'. injection Hrow' as <-.
  split; [done|]. by rewrite <- Hsync.
Qed.

(** The title cycle A, B, A leaves two rows, keyed on "a" and on "b"; the
    change to C then overwrites the row keyed on "a". *)
Example title_cycle_ledger :
  ledger (Mixins.save_all Text.slugify write empty_store (take 3 title_cycle)) =
    [ {| old_slug := "a"; new_slug := "b"; content_type := "post";
         object_id := 1; redirect_type := Primary |};
      {| old_slug := "b"; new_slug := "a"; content_type := "post";
         object_id := 1; redirect_type := Primary |} ] ∧
  ledger (Mixins.save_all Text.slugify write empty_store title_cycle) =
    [ {| old_slug := "a"; new_slug := "c"; content_type := "post";
         object_id := 1; redirect_type := Primary |};
      {| old_slug := "b"; new_slug := "a"; content_type := "post";
         object_id := 1; redirect_type := Primary |} ].
Proof. vm_compute. done. Qed.



(** ** middleware/slug_swap.py *)

Section Resolver.
Variable reverse : string → gmap string string → option string.
Variable slug_type_mapping : list (string * string).
Variable rows : list SlugSwap.

Lemma process_response_other_status request response :
  Middleware.status_code response ≠ 404%Z →
  Middleware.process_response reverse slug_type_mapping rows request response = response.
Proof.
  intros Hs. unfold Middleware.process_response. by rewrite bool_decide_eq_false_2.
Qed.

Lemma collect_absent request m mapping acc :
  Middleware.resolver_match request = Some m →
  (∀ name ty, (name, ty) ∈ mapping →
     Middleware.kwargs m !! name = None ∨ Middleware.kwargs m !! name = Some "") →
  Middleware.collect rows request mapping acc = Returns acc.
Proof.
  intros Hm. revert acc. induction mapping as [|[name ty] mapping IH]; intros acc Habs.
  - done.
  - simpl. rewrite Hm.
    assert (Middleware.collect rows request mapping acc = Returns acc) as Hrest.
    { apply IH. intros n t Hin. apply (Habs n t). by apply elem_of_cons; right. }
    by destruct (Habs name ty ltac:(by apply elem_of_cons; left)) as [->| ->].
Qed.

(** A not-found response passes through when the route holds none of the
    configured parameters. *)
Lemma process_response_no_parameter request m response :
  Middleware.resolver_match request = Some m →
  (∀ name ty, (name, ty) ∈ slug_type_mapping →
     Middleware.kwargs m !! name = None ∨ Middleware.kwargs m !! name = Some "") →
  Middleware.process_response reverse slug_type_mapping rows request response = response.
Proof.
  intros Hm Habs. unfold Middleware.process_response, Middleware.try_redirect.
  rewrite (collect_absent request m _ ∅ Hm Habs).
  case_bool_decide; [|done].
  by rewrite (bool_decide_eq_false_2 (∅ ≠ ∅)) by (intros Hne; by apply Hne).
Qed.

(** The redirect class comes from the row keyed on the value found in the
    rewritten parameters: a permanent redirect needs a Primary row whose
    [old_slug] is that value. *)
Lemma redirect_permanent url updated_kwargs :
  Middleware._redirect slug_type_mapping rows url updated_kwargs
    = Middleware.PermanentRedirect url →
  ∃ v row,
    Middleware.first_slug slug_type_mapping.*1 updated_kwargs = Some v ∧
    head (filter (λ r, old_slug r = v) rows) = Some row ∧
    redirect_type row = Primary.
Proof.
  unfold Middleware._redirect.
  destruct (Middleware.first_slug _ _) as [v|] eqn:Hv; [|done].
  destruct (truthy v); [|done].
  destruct (head _) as [row|] eqn:Hrow; [|done].
  destruct (decide (redirect_type row = Primary)) as [Hp|]; [|done].
  intros _. by exists v, row.
Qed.

End Resolver.

(** C1. The specification's end-to-end example. The ledger holds
    "old-name" to "new-name" with the Primary class, and the route can be
    rebuilt with the new slug; the middleware answers the stale URL with a
    temporary redirect, because the class is looked up under the new slug,
    which keys no row. *)
Theorem stale_slug_redirect_is_temporary :
  head (filter (λ r, old_slug r = "old-name") renamed_ledger) ≫=
    (λ r, Some (redirect_type r)) = Some Primary ∧
  Examples.reverse "post-detail" {[ "post_slug" := "new-name" ]} = Some "/posts/new-name/" ∧
  Middleware.process_response Examples.reverse Conf.default_slug_type_mapping
    renamed_ledger (request_for "old-name") not_found
  = Middleware.TemporaryRedirect "/posts/new-name/".
Proof. vm_compute. done. Qed.

(** C2. A slug that no ledger row knows is not substituted, and still the
    middleware answers the not-found response with a redirect, to the very
    URL that was not found. *)
Theorem unmatched_slug_is_redirected :
  Middleware._get_new_slug [] "no-such-post" "post" = "no-such-post" ∧
  Middleware.process_response Examples.reverse Conf.default_slug_type_mapping
    [] (request_for "no-such-post") not_found
  = Middleware.TemporaryRedirect "/posts/no-such-post/".
Proof. vm_compute. done. Qed.

(** ** The theorems at work on the sample data *)

Lemma uniqueness_resolution_witness :
  "hello-world" ≠ "" ∧
  Mixins.generate_unique_slug Text.slugify blog (post None "Hello World!" "")
    = Some "hello-world-1".
Proof.
  split; [discriminate|].
  destruct (uniqueness_resolution "hello-world" ltac:(discriminate)) as [_ Hmixin].
  destruct (Hmixin Text.slugify blog (post None "Hello World!" "")
              ltac:(vm_compute; reflexivity)) as [(result & Hr & _ & Hone) _].
  rewrite Hr. f_equal. apply Hone; vm_compute; reflexivity.
Defined.

Lemma unique_takes_precedence_witness :
  Fields.unique dated_slug = true ∧ Fields.unique_with dated_slug ≠ [] ∧
  getattr (attrs news_2025) "pub_date" ≠ "2024" ∧
  Fields.is_slug_exists dated_slug news_2024 "news" news_2025 = true.
Proof.
  split; [reflexivity|]. split; [vm_compute; discriminate|].
  split; [vm_compute; discriminate|].
  destruct (unique_takes_precedence dated_slug news_2024 "news" news_2025
              ltac:(reflexivity) ltac:(vm_compute; discriminate))
    as (_ & _ & _ & Hcollides).
  apply (Hcollides 1%Z {[ "slug" := "news"; "pub_date" := "2024" ]});
    [vm_compute; reflexivity | discriminate | vm_compute; reflexivity].
Defined.


Lemma unchanged_slug_keeps_ledger_witness :
  (∃ k row, pk (post (Some 1%Z) "Hello World!" "hello-world") = Some k ∧
            Mixins.objects blog (post (Some 1%Z) "Hello World!" "hello-world") !! k = Some row ∧
            Mixins.generate_unique_slug Text.slugify blog
              (post (Some 1%Z) "Hello World!" "hello-world") = Some (getattr row "slug")) ∧
  ledger (Mixins.save Text.slugify write blog
            (post (Some 1%Z) "Hello World!" "hello-world")).1.1 = ledger blog.
Proof.
  assert (∃ k row, pk (post (Some 1%Z) "Hello World!" "hello-world") = Some k ∧
            Mixins.objects blog (post (Some 1%Z) "Hello World!" "hello-world") !! k = Some row ∧
            Mixins.generate_unique_slug Text.slugify blog
              (post (Some 1%Z) "Hello World!" "hello-world") = Some (getattr row "slug"))
    as Hsame.
  { exists 1%Z, {[ "title" := "Hello World"; "slug" := "hello-world" ]}.
    repeat split; vm_compute; reflexivity. }
  split; [exact Hsame|].
  apply (unchanged_slug_keeps_ledger Text.slugify write blog). right. exact Hsame.
Defined.

Lemma failed_write_keeps_ledger_witness :
  Mixins.generate_unique_slug Text.slugify blog (post None "Hello World" "")
    = Some "hello-world-1" ∧
  write (Mixins.objects blog (post None "Hello World" ""))
        (setattr (post None "Hello World" "") "slug" "hello-world-1")
    = Raises IntegrityError ∧
  ledger (Mixins.save Text.slugify write blog (post None "Hello World" "")).1.1
    = ledger blog.
Proof.
  assert (Mixins.generate_unique_slug Text.slugify blog (post None "Hello World" "")
          = Some "hello-world-1") as Hslug by (vm_compute; reflexivity).
  assert (write (Mixins.objects blog (post None "Hello World" ""))
            (setattr (post None "Hello World" "") "slug" "hello-world-1")
          = Raises IntegrityError) as Hwrite by (vm_compute; reflexivity).
  split; [exact Hslug|]. split; [exact Hwrite|].
  exact (proj2 (failed_write_keeps_ledger Text.slugify write blog
                  (post None "Hello World" "") "hello-world-1" IntegrityError
                  Hslug Hwrite)).
Defined.

Lemma resave_is_idempotent_witness :
  (Mixins.save Text.slugify write empty_store (post None "Hello World" "")).2 = Returns () ∧
  Mixins.save Text.slugify write
    (Mixins.save Text.slugify write empty_store (post None "Hello World" "")).1.1
    (Mixins.save Text.slugify write empty_store (post None "Hello World" "")).1.2
  = ((Mixins.save Text.slugify write empty_store (post None "Hello World" "")).1.1,
     (Mixins.save Text.slugify write empty_store (post None "Hello World" "")).1.2,
     Returns ()).
Proof.
  split; [vm_compute; reflexivity|].
  destruct (resave_is_idempotent Text.slugify empty_store (post None "Hello World" "")
              (Mixins.save Text.slugify write empty_store (post None "Hello World" "")).1.1
              (Mixins.save Text.slugify write empty_store (post None "Hello World" "")).1.2
              ltac:(vm_compute; reflexivity))
    as (st2 & self2 & Hagain & _ & _ & -> & ->).
  exact Hagain.
Defined.


(** * Further properties of the code *)

(** ** middleware/slug_swap.py: what the middleware answers *)

Section Answers.
Variable reverse : string → gmap string string → option string.
Variable slug_type_mapping : list (string * string).
Variable rows : list SlugSwap.

Lemma redirect_either url updated_kwargs :
  Middleware._redirect slug_type_mapping rows url updated_kwargs
    = Middleware.PermanentRedirect url ∨
  Middleware._redirect slug_type_mapping rows url updated_kwargs
    = Middleware.TemporaryRedirect url.
Proof.
  unfold Middleware._redirect.
  destruct (Middleware.first_slug _ _) as [v|]; [|by right].
  destruct (truthy v); [|by right].
  destruct (head _) as [row|]; [|by right].
  destruct (decide (redirect_type row = Primary)); [by left | by right].
Qed.

Lemma process_response_cases request response :
  Middleware.process_response reverse slug_type_mapping rows request response = response ∨
  (Middleware.status_code response = 404%Z ∧
   ∃ m updated_kwargs url,
     Middleware.resolver_match request = Some m ∧
     Middleware.collect rows request slug_type_mapping ∅ = Returns updated_kwargs ∧
     updated_kwargs ≠ ∅ ∧
     reverse (Middleware.view_name m) updated_kwargs = Some url ∧
     (Middleware.process_response reverse slug_type_mapping rows request response
        = Middleware.PermanentRedirect url ∨
      Middleware.process_response reverse slug_type_mapping rows request response
        = Middleware.TemporaryRedirect url)).
Proof.
  unfold Middleware.process_response, Middleware.try_redirect.
  case_bool_decide as Hstatus; [|by left].
  destruct (Middleware.collect rows request slug_type_mapping ∅)
    as [updated_kwargs| |] eqn:Hcollect; [|by left..].
  case_bool_decide as Hne; [|by left].
  destruct (Middleware.resolver_match request) as [m|] eqn:Hm; [|by left].
  destruct (reverse (Middleware.view_name m) updated_kwargs) as [url|] eqn:Hurl; [|by left].
  right. split; [done|]. exists m, updated_kwargs, url.
  repeat split; try done. apply redirect_either.
Qed.

(** The middleware answers with the response it was given or with a redirect
    to a URL that [reverse] built from the rewritten parameters of a
    not-found request; it answers nothing else. *)
Theorem process_response_answers request response :
  Middleware.process_response reverse slug_type_mapping rows request response = response ∨
  (Middleware.status_code response = 404%Z ∧
   ∃ m updated_kwargs url,
     Middleware.resolver_match request = Some m ∧
     Middleware.collect rows request slug_type_mapping ∅ = Returns updated_kwargs ∧
     updated_kwargs ≠ ∅ ∧
     reverse (Middleware.view_name m) updated_kwargs = Some url ∧
     (Middleware.process_response reverse slug_type_mapping rows request response
        = Middleware.PermanentRedirect url ∨
      Middleware.process_response reverse slug_type_mapping rows request response
        = Middleware.TemporaryRedirect url)).
Proof. apply process_response_cases. Qed.

(** The redirect is permanent exactly when the first configured parameter
    found among the rewritten ones has a non-empty value that keys a ledger
    row, and the first such row is Primary; in every other case it is
    temporary. *)
Theorem redirect_class url updated_kwargs :
  (Middleware._redirect slug_type_mapping rows url updated_kwargs
     = Middleware.PermanentRedirect url ∧
   ∃ v row,
     Middleware.first_slug slug_type_mapping.*1 updated_kwargs = Some v ∧ v ≠ "" ∧
     head (filter (λ r, old_slug r = v) rows) = Some row ∧
     redirect_type row = Primary) ∨
  (Middleware._redirect slug_type_mapping rows url updated_kwargs
     = Middleware.TemporaryRedirect url ∧
   ¬ ∃ v row,
     Middleware.first_slug slug_type_mapping.*1 updated_kwargs = Some v ∧ v ≠ "" ∧
     head (filter (λ r, old_slug r = v) rows) = Some row ∧
     redirect_type row = Primary).
Proof.
  unfold Middleware._redirect.
  destruct (Middleware.first_slug _ _) as [v|] eqn:Hv.
  - unfold truthy. case_bool_decide as Hne.
    + destruct (head (filter (λ r, old_slug r = v) rows)) as [row|] eqn:Hrow.
      * destruct (decide (redirect_type row = Primary)) as [Hp|Hp].
        -- left. split; [done|]. by exists v, row.
        -- right. split; [done|]. intros (v' & row' & Hv' & _ & Hrow' & Hp').
           injection Hv' as <-. rewrite Hrow in Hrow'. injection Hrow' as <-. done.
      * right. split; [done|]. intros (v' & row' & Hv' & _ & Hrow' & _).
        injection Hv' as <-. by rewrite Hrow in Hrow'.
    + right. split; [done|]. intros (v' & row' & Hv' & Hne' & _).
      injection Hv' as <-. apply Hne'. by destruct (decide (v = "")).
  - right. split; [done|]. by intros (v' & row' & Hv' & _).
Qed.

(** The value [_redirect] looks up: that of the first mapping name, in
    iteration order, that the rewritten parameters hold. *)
Lemma first_slug_Some names (updated_kwargs : gmap string string) v :
  Middleware.first_slug names updated_kwargs = Some v ↔
  ∃ i name, names !! i = Some name ∧ updated_kwargs !! name = Some v ∧
            ∀ j name', (j < i)%nat → names !! j = Some name' →
                       updated_kwargs !! name' = None.
Proof.
  induction names as [|n names IH]; simpl.
  - split; [done|]. by intros (i & name & Hi & _).
  - destruct (updated_kwargs !! n) as [w|] eqn:Hn.
    + split.
      * intros [= <-]. exists 0%nat, n. repeat split; [done|]. intros j name' Hj. lia.
      * intros ([|i] & name & Hi & Hname & Hbefore).
        -- simpl in Hi. injection Hi as <-. by rewrite Hn in Hname.
        -- specialize (Hbefore 0%nat n ltac:(lia) eq_refl). by rewrite Hn in Hbefore.
    + rewrite IH. split.
      * intros (i & name & Hi & Hname & Hbefore). exists (S i), name.
        repeat split; [done | done |].
        intros [|j] name' Hj Hj'; simpl in Hj'.
        -- by injection Hj' as <-.
        -- apply (Hbefore j); [lia | done].
      * intros ([|i] & name & Hi & Hname & Hbefore).
        -- simpl in Hi. injection Hi as <-. by rewrite Hn in Hname.
        -- exists i, name. repeat split; [done | done |].
           intros j name' Hj Hj'. apply (Hbefore (S j)); [lia | done].
Qed.

(** Errors do not leave the middleware: with no resolver match on the
    request, and with a route that [reverse] cannot rebuild, the response
    given is the response returned. *)
Theorem process_response_falls_back request response :
  Middleware.resolver_match request = None ∨
  (∃ m, Middleware.resolver_match request = Some m ∧
        ∀ updated_kwargs, reverse (Middleware.view_name m) updated_kwargs = None) →
  Middleware.process_response reverse slug_type_mapping rows request response = response.
Proof.
  intros Hcase.
  destruct (process_response_cases request response)
    as [Hsame|(_ & m & updated_kwargs & url & Hm & _ & _ & Hurl & _)]; [done|].
  destruct Hcase as [Hnone|(m' & Hm' & Hfail)].
  - by rewrite Hnone in Hm.
  - rewrite Hm in Hm'. injection Hm' as <-. by rewrite Hfail in Hurl.
Qed.

(** The loop entered with parameters already collected: names it does not
    rewrite keep what was collected. *)
Lemma collect_from request m mapping acc :
  Middleware.resolver_match request = Some m →
  NoDup mapping.*1 →
  ∃ updated_kwargs,
    Middleware.collect rows request mapping acc = Returns updated_kwargs ∧
    ∀ name,
      updated_kwargs !! name =
        match (list_to_map mapping : gmap string string) !! name with
        | Some slug_type =>
            match Middleware.kwargs m !! name with
            | Some old_slug =>
                if truthy old_slug
                then Some (Middleware._get_new_slug rows old_slug slug_type)
                else acc !! name
            | None => acc !! name
            end
        | None => acc !! name
        end.
Proof.
  intros Hm. revert acc.
  induction mapping as [|[n ty] mapping IH]; intros acc Hnd.
  - exists acc. split; [done|]. intros name.
    by rewrite list_to_map_nil, lookup_empty.
  - simpl in Hnd. apply NoDup_cons in Hnd as [Hfresh Hnd].
    assert ((list_to_map mapping : gmap string string) !! n = None) as Hn.
    { by apply not_elem_of_list_to_map_1. }
    simpl Middleware.collect. rewrite Hm, list_to_map_cons.
    destruct (Middleware.kwargs m !! n) as [old|] eqn:Hold.
    + destruct (truthy old) eqn:Htruthy.
      * destruct (IH (<[n := Middleware._get_new_slug rows old ty]> acc) Hnd)
          as (kw & Hkw & Hlook).
        exists kw. split; [done|]. intros name. rewrite Hlook.
        destruct (decide (n = name)) as [<-|Hne].
        -- by rewrite Hn, lookup_insert_eq, Hold, Htruthy, lookup_insert_eq.
        -- by rewrite !(lookup_insert_ne _ n name) by done.
      * destruct (IH acc Hnd) as (kw & Hkw & Hlook).
        exists kw. split; [done|]. intros name. rewrite Hlook.
        destruct (decide (n = name)) as [<-|Hne].
        -- by rewrite Hn, lookup_insert_eq, Hold, Htruthy.
        -- by rewrite (lookup_insert_ne _ n name) by done.
    + destruct (IH acc Hnd) as (kw & Hkw & Hlook).
      exists kw. split; [done|]. intros name. rewrite Hlook.
      destruct (decide (n = name)) as [<-|Hne].
      * by rewrite Hn, lookup_insert_eq, Hold.
      * by rewrite (lookup_insert_ne _ n name) by done.
Qed.

(** The parameters handed to [reverse]: for each configured name that the
    route holds with a non-empty value, the slug [_get_new_slug] gives for
    that value and the configured type; no other name. The mapping is a
    dictionary, its names are pairwise distinct. *)
Theorem collect_rewrites request m :
  Middleware.resolver_match request = Some m →
  NoDup slug_type_mapping.*1 →
  ∃ updated_kwargs,
    Middleware.collect rows request slug_type_mapping ∅ = Returns updated_kwargs ∧
    ∀ name,
      updated_kwargs !! name =
        slug_type ← (list_to_map slug_type_mapping : gmap string string) !! name;
        old_slug ← Middleware.kwargs m !! name;
        if truthy old_slug
        then Some (Middleware._get_new_slug rows old_slug slug_type) else None.
Proof.
  intros Hm Hnd. destruct (collect_from request m slug_type_mapping ∅ Hm Hnd)
    as (kw & Hkw & Hlook).
  exists kw. split; [done|]. intros name. rewrite Hlook, lookup_empty.
  destruct (list_to_map slug_type_mapping !! name) as [ty|]; [|done]. simpl.
  by destruct (Middleware.kwargs m !! name) as [old|].
Qed.

End Answers.

(** ** models.py: the upsert on any ledger *)

Lemma filter_key_fmap (f : SlugSwap → SlugSwap) key (rows : list SlugSwap) :
  (∀ r, old_slug (f r) = old_slug r) →
  filter (λ r, old_slug r = key) (f <$> rows) = f <$> filter (λ r, old_slug r = key) rows.
Proof.
  intros Hkeep. induction rows as [|r rows IH]; [done|].
  rewrite fmap_cons, !filter_cons, Hkeep, IH. by case_decide.
Qed.

Lemma update_or_create_raises rows key new ct oid :
  update_or_create rows key new ct oid = Raises MultipleObjectsReturned ↔
  (2 ≤ length (filter (λ r, old_slug r = key) rows))%nat.
Proof.
  unfold update_or_create.
  destruct (filter (λ r, old_slug r = key) rows) as [|r [|r' found]]; simpl.
  - destruct (decide (oid < 0)%Z); (split; [done | lia]).
  - destruct (decide (oid < 0)%Z); (split; [done | lia]).
  - split; [intros _; lia | done].
Qed.

Lemma update_or_create_returns rows key new ct oid rows' :
  update_or_create rows key new ct oid = Returns rows' →
  (∃ kept, filter (λ r, old_slug r = key) rows' =
             [ {| old_slug := key; new_slug := new; content_type := ct;
                  object_id := oid; redirect_type := kept |} ]) ∧
  (length rows ≤ length rows' ≤ S (length rows))%nat.
Proof.
  intros Hu.
  destruct (update_or_create_shape _ _ _ _ _ _ Hu) as [[Hf ->]|(r & Hf & ->)].
  - split.
    + exists Primary. rewrite filter_app, Hf, filter_cons. simpl.
      by rewrite decide_True by done.
    + rewrite length_app. simpl. lia.
  - split.
    + exists (redirect_type r). rewrite filter_key_fmap by (intros x; by case_decide).
      rewrite Hf. simpl.
      assert (old_slug r = key) as Hr.
      { assert (r ∈ filter (λ r, old_slug r = key) rows) as Hin
          by (rewrite Hf; apply list_elem_of_here).
        by apply list_elem_of_filter in Hin as [? _]. }
      rewrite decide_True by done. by rewrite Hr.
    + rewrite length_fmap. lia.
Qed.

(** After an upsert the middleware's lookup of the key, under the owner's
    content type, gives the new slug. *)
Lemma upsert_then_lookup rows key new ct oid rows' :
  update_or_create rows key new ct oid = Returns rows' →
  Middleware._get_new_slug rows' key ct = new.
Proof.
  intros Hu.
  destruct (update_or_create_returns rows key new ct oid rows' Hu) as [[kept Hf] _].
  unfold Middleware._get_new_slug.
  rewrite (list_filter_iff (λ r, old_slug r = key ∧ content_type r = ct)
             (λ r, content_type r = ct ∧ old_slug r = key)) by (intros r; tauto).
  rewrite <- (list_filter_filter (λ r, content_type r = ct) (λ r, old_slug r = key)).
  rewrite Hf, filter_cons. simpl. by rewrite decide_True by done.
Qed.

(** ** mixins.py: what a save writes *)

(** A save that returns has written the instance and nothing else into the
    tables: the instance has a key, its own or a fresh one; the row under
    that key holds the instance's attributes, which are those passed in but
    for the slug; every other row and every other table is as before. *)
Theorem save_writes_row slugify st self st1 self1 :
  Mixins.save slugify Mixins.Model_save st self = (st1, self1, Returns ()) →
  ∃ k,
    pk self1 = Some k ∧
    (pk self = Some k ∨ (pk self = None ∧ Mixins.objects st self !! k = None)) ∧
    cls self1 = cls self ∧
    (∀ name, name ≠ "slug" → attrs self1 !! name = attrs self !! name) ∧
    Mixins.objects st1 self1 !! k = Some (attrs self1) ∧
    (∀ k', k' ≠ k → Mixins.objects st1 self1 !! k' = Mixins.objects st self !! k') ∧
    (∀ c, c ≠ cls self → tables st1 !! c = tables st !! c).
Proof.
  intros Hsave.
  destruct (save_returns_inv _ _ _ _ _ Hsave)
    as (s & k & _ & _ & Hk & _ & -> & Htables & _).
  assert (Mixins.objects st1
            {| cls := cls self; pk := Some k; attrs := <["slug" := s]> (attrs self) |}
          = <[k := <["slug" := s]> (attrs self)]> (Mixins.objects st self)) as Hobjects.
  { unfold Mixins.objects at 1. simpl. by rewrite Htables, lookup_insert_eq. }
  exists k. simpl. rewrite Hobjects. repeat split.
  - destruct Hk as [Hk|[Hnone ->]]; [by left | right]. split; [done|].
    apply next_pk_fresh.
  - intros name Hne. by rewrite lookup_insert_ne.
  - apply lookup_insert_eq.
  - intros k' Hne. by rewrite lookup_insert_ne.
  - intros c Hne. by rewrite Htables, lookup_insert_ne.
Qed.

(** Renaming, then resolving. When an instance whose in-memory slug is the
    persisted one is saved under a title that resolves to another slug, the
    middleware's lookup of the old slug, under the instance's model name,
    gives the slug the save has just persisted. *)
Theorem renamed_slug_resolves slugify st self st1 self1 k row :
  Mixins.save slugify Mixins.Model_save st self = (st1, self1, Returns ()) →
  pk self = Some k → k ≠ 0%Z →
  Mixins.objects st self !! k = Some row →
  getattr (attrs self) "slug" = getattr row "slug" →
  getattr row "slug" ≠ getattr (attrs self1) "slug" →
  Middleware._get_new_slug (ledger st1) (getattr row "slug") (cls self)
    = getattr (attrs self1) "slug".
Proof.
  intros Hsave Hpk Hk0 Hrow Hsync Hrenamed.
  destruct (save_returns_inv _ _ _ _ _ Hsave)
    as (s & k' & _ & _ & _ & _ & -> & _ & Hledger).
  simpl in Hrenamed |- *. rewrite getattr_insert_eq in Hrenamed |- *.
  assert (Mixins.check_slug_changed st self s = true) as Hchanged.
  { apply check_slug_changed_true. by exists k, row. }
  destruct Hledger as [[Hc _]|[_ Hu]]; [congruence|].
  rewrite Hsync in Hu. by apply upsert_then_lookup in Hu.
Qed.

(** How the upsert can raise: on a key held twice or more, or, with one row
    or none under the key, on a negative owner id. *)
Lemma update_or_create_raises_cases rows key new ct oid e :
  update_or_create rows key new ct oid = Raises e →
  (e = MultipleObjectsReturned ∧
   (2 ≤ length (filter (λ r, old_slug r = key) rows))%nat) ∨
  (e = IntegrityError ∧ (oid < 0)%Z).
Proof.
  unfold update_or_create.
  destruct (filter (λ r, old_slug r = key) rows) as [|r [|r' found]]; simpl.
  - destruct (decide (oid < 0)%Z); intros [= <-]. by right.
  - destruct (decide (oid < 0)%Z); intros [= <-]. by right.
  - intros [= <-]. left. split; [done | lia].
Qed.

(** How a save can raise: in the write, on the unique indexes, with the
    store as it was; or in the ledger step, after the write. *)
Lemma save_raises_inv slugify st self st1 self1 e :
  Mixins.save slugify Mixins.Model_save st self = (st1, self1, Raises e) →
  (e = IntegrityError ∧ st1 = st ∧
   ∃ s,
     resolves (Mixins.slug_taken st self) (Mixins.generate_new_slug_base slugify self) "-" s ∧
     Mixins.violates_unique (Mixins.objects st self) (setattr self "slug" s) = true) ∨
  (ledger st1 = ledger st ∧
   ∃ s k row,
     pk self = Some k ∧ pk self1 = Some k ∧ cls self1 = cls self ∧
     attrs self1 = <["slug" := s]> (attrs self) ∧
     tables st1 = <[cls self := <[k := attrs self1]> (Mixins.objects st self)]> (tables st) ∧
     Mixins.objects st self !! k = Some row ∧ getattr row "slug" ≠ s ∧
     update_or_create (ledger st) (getattr (attrs self) "slug") s (cls self) k = Raises e).
Proof.
  unfold Mixins.save.
  destruct (mixin_loop_resolves slugify st self) as (s & Hs & Hres). rewrite Hs.
  rewrite objects_setattr. unfold Mixins.Model_save, Mixins.db_write.
  destruct (Mixins.violates_unique _ _) eqn:Hviol.
  - intros [= <- <- <-]. left. repeat split. by exists s.
  - destruct (Mixins.check_slug_changed st self s) eqn:Hchanged.
    + apply check_slug_changed_true in Hchanged as (k & row & Hpk & Hk & Hrow & Hne).
      simpl. rewrite Hpk. unfold Mixins.handle_slug_swap_logic. simpl. rewrite Hpk.
      rewrite bool_decide_eq_true_2 by done.
      destruct (update_or_create _ _ _ _ _) as [rows'|e'|] eqn:Hu; [done| |done].
      intros [= <- <- <-]. right. split; [done|].
      exists s, k, row. by repeat split.
    + by destruct (pk (setattr self "slug" s)).
Qed.


(** The entity write and the ledger upsert are not one transaction. When the
    ledger holds two rows or more under the instance's in-memory slug, the
    upsert raises [MultipleObjectsReturned], after the entity has been
    written: the row is in the table, the ledger is untouched. *)
Theorem upsert_failure_keeps_write slugify st self st1 self1 :
  Mixins.save slugify Mixins.Model_save st self
    = (st1, self1, Raises MultipleObjectsReturned) →
  ledger st1 = ledger st ∧
  (2 ≤ length (filter (λ r, old_slug r = getattr (attrs self) "slug") (ledger st)))%nat ∧
  ∃ k, pk self1 = Some k ∧ Mixins.objects st1 self1 !! k = Some (attrs self1).
Proof.
  intros Hsave.
  destruct (save_raises_inv _ _ _ _ _ _ Hsave)
    as [[He _]
       |(Hledger & s & k & row & Hpk & Hpk1 & Hcls & Hattrs & Htables & Hrow & Hne & Hu)];
    [done|].
  destruct (update_or_create_raises_cases _ _ _ _ _ _ Hu) as [[_ Hdup]|[He _]]; [|done].
  repeat split; [done | done |]. exists k. split; [done|].
  unfold Mixins.objects.
  by rewrite Hcls, Htables, lookup_insert_eq; simpl; rewrite lookup_insert_eq.
Qed.

Section SaveAnyWriteMore.
Variable slugify : string → bool → string.
Variable super_save :
  gmap Z (gmap string string) → Instance →
  Outcome (gmap Z (gmap string string) * Instance).

Lemma save_ledger_cases st self :
  ledger (Mixins.save slugify super_save st self).1.1 = ledger st ∨
  ∃ new ct oid,
    update_or_create (ledger st) (getattr (attrs self) "slug") new ct oid
      = Returns (ledger (Mixins.save slugify super_save st self).1.1).
Proof.
  unfold Mixins.save.
  destruct (Mixins.generate_unique_slug slugify st self) as [new_slug|]; [|by left].
  destruct (super_save _ _) as [[model self']| |]; [|by left..].
  destruct (Mixins.check_slug_changed st self new_slug); [|by left].
  unfold Mixins.handle_slug_swap_logic. simpl.
  destruct (pk self') as [k|]; [|by left].
  destruct (bool_decide (k ≠ 0%Z)); [|by left].
  destruct (update_or_create _ _ _ _ _) as [rows'| |] eqn:Hu; [|by left..].
  right. by exists new_slug, (cls self'), k.
Qed.

(** A save never removes a ledger row and never changes a row's key or
    redirect type; a row keyed otherwise than on the instance's in-memory
    slug is left as it is. A save adds one row at most, keyed on that slug
    and Primary. This holds whatever the framework's write does. *)
Theorem save_ledger_grows_by_at_most_one st self :
  (length (ledger st) ≤ length (ledger (Mixins.save slugify super_save st self).1.1)
     ≤ S (length (ledger st)))%nat ∧
  (∀ i r, ledger st !! i = Some r →
     ∃ r', ledger (Mixins.save slugify super_save st self).1.1 !! i = Some r' ∧
           old_slug r' = old_slug r ∧ redirect_type r' = redirect_type r ∧
           (old_slug r ≠ getattr (attrs self) "slug" → r' = r)) ∧
  (∀ r', ledger (Mixins.save slugify super_save st self).1.1 !! length (ledger st)
           = Some r' →
         old_slug r' = getattr (attrs self) "slug" ∧ redirect_type r' = Primary).
Proof.
  destruct (save_ledger_cases st self) as [->|(new & ct & oid & Hu)].
  - split; [lia|]. split.
    + intros i r Hi. by exists r.
    + intros r' Hr'. apply lookup_lt_Some in Hr'. lia.
  - destruct (update_or_create_shape _ _ _ _ _ _ Hu) as [[_ ->]|(r0 & _ & ->)].
    + split; [rewrite length_app; simpl; lia|]. split.
      * intros i r Hi. exists r. split; [|done].
        rewrite lookup_app_l; [done|]. by eapply lookup_lt_Some.
      * intros r' Hr'. rewrite lookup_app_r, Nat.sub_diag in Hr' by lia.
        simpl in Hr'. by injection Hr' as <-.
    + split; [rewrite length_fmap; lia|]. split.
      * intros i r Hi. rewrite list_lookup_fmap, Hi. simpl.
        eexists. split; [done|]. by case_decide.
      * intros r' Hr'. apply lookup_lt_Some in Hr'. rewrite length_fmap in Hr'. lia.
Qed.

Lemma unique_loop_setattr st self name value base fuel slug counter :
  Mixins.unique_loop st (setattr self name value) base fuel slug counter
  = Mixins.unique_loop st self base fuel slug counter.
Proof.
  revert slug counter. induction fuel as [|fuel IH]; intros slug counter; [done|].
  simpl. rewrite IH. done.
Qed.

(** The slug an instance holds in memory when it is saved has no part in
    what is written: the tables and the instance after the save are the same
    whatever that slug was. Only the ledger key depends on it. *)
Theorem in_memory_slug_is_discarded st self value :
  tables (Mixins.save slugify super_save st (setattr self "slug" value)).1.1
    = tables (Mixins.save slugify super_save st self).1.1 ∧
  (Mixins.save slugify super_save st (setattr self "slug" value)).1.2
    = (Mixins.save slugify super_save st self).1.2.
Proof.
  unfold Mixins.save.
  assert (Mixins.generate_unique_slug slugify st (setattr self "slug" value)
          = Mixins.generate_unique_slug slugify st self) as ->.
  { unfold Mixins.generate_unique_slug, Mixins.generate_new_slug_base,
      Mixins.get_slug_source_field. simpl.
    rewrite getattr_insert_ne by done. apply unique_loop_setattr. }
  destruct (mixin_loop_resolves slugify st self) as (new_slug & -> & _).
  rewrite setattr_setattr, !objects_setattr.
  change (Mixins.check_slug_changed st (setattr self "slug" value) new_slug)
    with (Mixins.check_slug_changed st self new_slug).
  destruct (super_save _ _) as [[model self']| |]; [|done..].
  change (cls (setattr self "slug" value)) with (cls self).
  destruct (Mixins.check_slug_changed st self new_slug); [|done].
  repeat match goal with
  | |- context [Mixins.handle_slug_swap_logic ?s ?i ?o ?n] =>
      let H := fresh "Ht" in
      pose proof (handle_slug_swap_logic_tables s i o n) as H;
      destruct (Mixins.handle_slug_swap_logic s i o n)
  end.
  simpl in *. split; [congruence | done].
Qed.

End SaveAnyWriteMore.

(** ** mixins.py: the admin title *)

Lemma py_len_app (s1 s2 : string) :
  py_len (s1 +:+ s2) = (py_len s1 + py_len s2)%nat.
Proof. induction s1 as [|c s1 IH]; simpl; [done | rewrite IH; lia]. Qed.

Lemma py_len_take (n : nat) (s : string) :
  py_len (py_take n s) = (n `min` py_len s)%nat.
Proof.
  revert n. induction s as [|c s IH]; intros n; simpl; [lia|].
  destruct (is_continuation c) eqn:Hc.
  - simpl. rewrite Hc, IH. lia.
  - destruct n as [|n]; simpl; [done|]. rewrite Hc, IH. lia.
Qed.

Lemma py_take_all (n : nat) (s : string) :
  (py_len s ≤ n)%nat → py_take n s = s.
Proof.
  revert n. induction s as [|c s IH]; intros n; simpl; [done|].
  destruct (is_continuation c); simpl.
  - intros Hlen. by rewrite IH.
  - destruct n as [|n]; [lia|]. intros Hlen. rewrite IH; [done | lia].
Qed.

(** What the admin column shows, counted in characters: the title itself
    when it is shorter than 30 characters, else its first 30 characters and
    an ellipsis, 33 characters in all. A title of exactly 30 characters loses
    nothing and still gets the ellipsis. *)
Theorem get_title_shown self :
  (py_len (Mixins.get_title self) ≤ 33)%nat ∧
  ((py_len (getattr (attrs self) "title") < 30)%nat →
   Mixins.get_title self = getattr (attrs self) "title") ∧
  ((30 ≤ py_len (getattr (attrs self) "title"))%nat →
   Mixins.get_title self = py_take 30 (getattr (attrs self) "title") +:+ "..." ∧
   py_len (Mixins.get_title self) = 33%nat) ∧
  (py_len (getattr (attrs self) "title") = 30%nat →
   Mixins.get_title self = getattr (attrs self) "title" +:+ "...").
Proof.
  unfold Mixins.get_title. set (title := getattr (attrs self) "title").
  destruct (py_len title <? 30)%nat eqn:Hlen.
  - apply Nat.ltb_lt in Hlen. split; [lia|]. split; [done|]. split; intros; lia.
  - apply Nat.ltb_ge in Hlen.
    assert (py_len (py_take 30 title +:+ "...") = 33%nat) as H33.
    { rewrite py_len_app, py_len_take.
      change (py_len "...") with 3%nat. lia. }
    split; [lia|]. split; [intros; lia|]. split; [done|].
    intros H30. by rewrite py_take_all by lia.
Qed.

(** Characters, not bytes: a title of 29 accented letters takes 58 bytes and
    is shown whole; one of 31 is cut after the 30th letter. *)
Example get_title_counts_characters :
  String.length "ééééééééééééééééééééééééééééé" = 58%nat ∧
  Mixins.get_title (post None "ééééééééééééééééééééééééééééé" "") = "ééééééééééééééééééééééééééééé" ∧
  Mixins.get_title (post None "ééééééééééééééééééééééééééééééé" "") = "éééééééééééééééééééééééééééééé...".
Proof. vm_compute. done. Qed.

(** ** fields.py: the closure [generate_slug] *)

Lemma is_slug_exists_setattr fld model slug instance value :
  Fields.is_slug_exists fld model slug (setattr instance (Fields.attname fld) value)
  = Fields.is_slug_exists fld model slug instance.
Proof.
  unfold Fields.is_slug_exists. simpl.
  replace (Fields.partial_filters fld slug (setattr instance (Fields.attname fld) value))
    with (Fields.partial_filters fld slug instance); [done|].
  unfold Fields.partial_filters. apply map_eq. intros name.
  rewrite !lookup_insert. case_decide as Hname; [done|].
  rewrite !lookup_sibling_filters. case_decide; [|done].
  simpl. by rewrite getattr_insert_ne.
Qed.

Lemma generate_slug_spec fld model instance :
  ∃ v,
    Fields.generate_slug fld model instance
      = Returns (setattr instance (Fields.attname fld) v) ∧
    ((truthy (value_before_uniqueness fld instance)
        && (Fields.unique fld || bool_decide (Fields.unique_with fld ≠ [])) = true ∧
      resolves (λ s, Fields.is_slug_exists fld model s instance)
        (value_before_uniqueness fld instance) (Fields.sep fld) v) ∨
     (truthy (value_before_uniqueness fld instance)
        && (Fields.unique fld || bool_decide (Fields.unique_with fld ≠ [])) = false ∧
      v = value_before_uniqueness fld instance)).
Proof.
  unfold Fields.generate_slug. fold (value_before_uniqueness fld instance).
  destruct (truthy (value_before_uniqueness fld instance)
            && (Fields.unique fld || bool_decide (Fields.unique_with fld ≠ []))) eqn:Hc.
  - destruct (fields_loop_resolves fld model instance
                (value_before_uniqueness fld instance)) as (v & -> & Hres).
    exists v. split; [done|]. by left.
  - eexists. split; [done|]. by right.
Qed.

(** The receiver always returns, and the instance it leaves differs from the
    one it was given in the slug attribute at most. *)
Theorem generate_slug_returns fld model instance :
  ∃ instance',
    Fields.generate_slug fld model instance = Returns instance' ∧
    pk instance' = pk instance ∧ cls instance' = cls instance ∧
    ∀ name, name ≠ Fields.attname fld → attrs instance' !! name = attrs instance !! name.
Proof.
  destruct (generate_slug_spec fld model instance) as (v & -> & _).
  eexists. repeat split. intros name Hne. simpl. by rewrite lookup_insert_ne.
Qed.

(** With a uniqueness mode configured, a non-empty slug that the receiver
    leaves on the instance is held by no other row in scope. *)
Theorem generate_slug_unique fld model instance instance' :
  Fields.unique fld = true ∨ Fields.unique_with fld ≠ [] →
  Fields.generate_slug fld model instance = Returns instance' →
  getattr (attrs instance') (Fields.attname fld) ≠ "" →
  Fields.is_slug_exists fld model (getattr (attrs instance') (Fields.attname fld)) instance'
    = false.
Proof.
  intros Hmode Hrun.
  destruct (generate_slug_spec fld model instance) as (v & Hv & Hcase).
  rewrite Hv in Hrun. injection Hrun as <-. simpl.
  rewrite getattr_insert_eq, is_slug_exists_setattr. intros Hne.
  destruct Hcase as [[_ Hres]|[Hc ->]].
  - exact (resolves_free _ _ _ _ Hres).
  - exfalso. apply andb_false_iff in Hc as [Hc|Hc].
    + unfold truthy in Hc. by apply bool_decide_eq_false in Hc.
    + apply orb_false_iff in Hc as [Hu Hw]. apply bool_decide_eq_false in Hw.
      destruct Hmode; [congruence | done].
Qed.

(** Called for a field that is always updated but has no source,
    [generate_slug] assigns the empty string to the field's attribute,
    whatever the instance held and whatever the table holds:
    [get_prepopulated_value] returns the empty string, which is neither
    slugified nor made unique. *)
Theorem always_update_without_source_clears_slug fld model instance :
  Fields.always_update fld = true → Fields.populate_from fld = None →
  Fields.generate_slug fld model instance
    = Returns (setattr instance (Fields.attname fld) "").
Proof.
  intros Halways Hsource.
  destruct (generate_slug_spec fld model instance) as (v & -> & Hcase).
  assert (value_before_uniqueness fld instance = "") as Hvalue.
  { unfold value_before_uniqueness, Fields.get_prepopulated_value.
    by rewrite Halways, Hsource. }
  rewrite Hvalue in Hcase. by destruct Hcase as [[? _]|[_ ->]].
Qed.

(** Without [always_update], a slug the instance already holds is never
    derived anew from the source: if no other row in scope holds it, the
    receiver leaves it as it is. *)
Theorem existing_slug_is_kept fld model instance :
  Fields.always_update fld = false →
  getattr (attrs instance) (Fields.attname fld) ≠ "" →
  Fields.is_slug_exists fld model (getattr (attrs instance) (Fields.attname fld)) instance
    = false →
  Fields.generate_slug fld model instance
    = Returns (setattr instance (Fields.attname fld)
                 (getattr (attrs instance) (Fields.attname fld))).
Proof.
  intros Halways Hslug Hfree.
  destruct (generate_slug_spec fld model instance) as (v & -> & Hcase).
  assert (value_before_uniqueness fld instance
          = getattr (attrs instance) (Fields.attname fld)) as Hvalue.
  { unfold value_before_uniqueness. rewrite Halways. simpl.
    unfold truthy. rewrite bool_decide_eq_true_2 by done. simpl.
    by rewrite andb_false_r. }
  rewrite Hvalue in Hcase. destruct Hcase as [[_ Hres]|[_ ->]]; [|done].
  by rewrite (resolves_base_free _ _ _ _ Hres Hfree).
Qed.

(** Without [always_update], running the receiver again on the instance it
    has left with a non-empty slug changes nothing. *)
Theorem generate_slug_idempotent fld model instance instance' :
  Fields.always_update fld = false →
  Fields.generate_slug fld model instance = Returns instance' →
  getattr (attrs instance') (Fields.attname fld) ≠ "" →
  Fields.generate_slug fld model instance' = Returns instance'.
Proof.
  intros Halways Hrun.
  destruct (generate_slug_spec fld model instance) as (v & Hv & Hcase).
  rewrite Hv in Hrun. injection Hrun as <-. simpl. rewrite getattr_insert_eq.
  intros Hne.
  destruct (generate_slug_spec fld model (setattr instance (Fields.attname fld) v))
    as (w & -> & Hcase').
  assert (value_before_uniqueness fld (setattr instance (Fields.attname fld) v) = v)
    as Hvalue.
  { unfold value_before_uniqueness. rewrite Halways. simpl. rewrite getattr_insert_eq.
    unfold truthy. rewrite (bool_decide_eq_true_2 (v ≠ "")) by done. simpl.
    by rewrite andb_false_r. }
  rewrite Hvalue in Hcase'. rewrite setattr_setattr.
  assert (w = v) as ->; [|done].
  destruct Hcase' as [[Hc Hres']|[_ ->]]; [|done].
  apply (resolves_base_free _ _ _ _ Hres'). simpl. rewrite is_slug_exists_setattr.
  destruct Hcase as [[_ Hres]|[Hc' Heq]].
  - exact (resolves_free _ _ _ _ Hres).
  - exfalso. apply andb_true_iff in Hc as [_ Hmode].
    apply andb_false_iff in Hc' as [Ht|Hmode']; [|congruence].
    rewrite <- Heq in Ht. unfold truthy in Ht. by apply bool_decide_eq_false in Ht.
Qed.

(** When the slug is empty or the field is always updated, and a source is
    configured: an empty source value leaves the slug empty; any other is
    slugified, and the result is the slug when no other row in scope holds
    it. *)
Theorem generate_slug_populates fld model instance :
  Fields.always_update fld = true ∨ getattr (attrs instance) (Fields.attname fld) = "" →
  Fields.source_truthy (Fields.populate_from fld) = true →
  (Fields.get_prepopulated_value fld instance = "" →
   Fields.generate_slug fld model instance
     = Returns (setattr instance (Fields.attname fld) "")) ∧
  (Fields.get_prepopulated_value fld instance ≠ "" →
   Fields.is_slug_exists fld model
     (Fields.slugify fld (Fields.get_prepopulated_value fld instance)) instance = false →
   Fields.generate_slug fld model instance
     = Returns (setattr instance (Fields.attname fld)
                  (Fields.slugify fld (Fields.get_prepopulated_value fld instance)))).
Proof.
  intros Hwhen Hsource.
  assert (value_before_uniqueness fld instance =
          if truthy (Fields.get_prepopulated_value fld instance)
          then Fields.slugify fld (Fields.get_prepopulated_value fld instance)
          else Fields.get_prepopulated_value fld instance) as Hvalue.
  { unfold value_before_uniqueness. rewrite Hsource.
    destruct Hwhen as [-> | ->]; [done|].
    unfold truthy at 1. rewrite bool_decide_eq_false_2 by (intros Hne; by apply Hne).
    by rewrite orb_true_r. }
  destruct (generate_slug_spec fld model instance) as (v & -> & Hcase).
  rewrite Hvalue in Hcase. unfold truthy in Hcase. split.
  - intros Hempty. rewrite Hempty in Hcase.
    rewrite (bool_decide_eq_false_2 ("" ≠ "")) in Hcase by (intros Hne; by apply Hne).
    by destruct Hcase as [[? _]|[_ ->]].
  - intros Hne Hfree.
    rewrite (bool_decide_eq_true_2 (Fields.get_prepopulated_value fld instance ≠ ""))
      in Hcase by done.
    destruct Hcase as [[_ Hres]|[_ ->]]; [|done].
    by rewrite (resolves_base_free _ _ _ _ Hres Hfree).
Qed.

(** Partial uniqueness. A slug is kept as it is when every other row that
    holds it differs from the instance in some sibling field; one other row
    that holds it and agrees on every sibling field moves the instance off
    the slug. A sibling entry named like the slug column itself does not
    count: the slug filter replaces it. *)
Theorem partial_uniqueness_scope fld model instance slug :
  Fields.unique fld = false → Fields.unique_with fld ≠ [] →
  ((∀ k row, model !! k = Some row → own_pk instance ≠ Some k →
      getattr row (Fields.attname fld) = slug →
      ∃ field, field ∈ Fields.unique_with fld ∧ field ≠ Fields.attname fld ∧
               getattr row field ≠ getattr (attrs instance) field) →
   Fields.generate_unique_slug fld model instance slug = Some slug) ∧
  (∀ k row, model !! k = Some row → own_pk instance ≠ Some k →
     getattr row (Fields.attname fld) = slug →
     (∀ field, field ∈ Fields.unique_with fld → field ≠ Fields.attname fld →
               getattr row field = getattr (attrs instance) field) →
     ∃ result, Fields.generate_unique_slug fld model instance slug = Some result ∧
               result ≠ slug).
Proof.
  intros Hu Hw.
  destruct (fields_loop_resolves fld model instance slug) as (result & Hr & Hres).
  split.
  - intros Hdiffer. rewrite Hr. f_equal.
    apply (resolves_base_free _ _ _ _ Hres).
    destruct (Fields.is_slug_exists fld model slug instance) eqn:Hheld; [|done].
    exfalso. apply is_slug_exists_partial in Hheld as (k & row & Hk & Hne & Hslug & Hsame);
      [|done..].
    destruct (Hdiffer k row Hk Hne Hslug) as (field & Hin & Hfield & Hdiff).
    by apply Hdiff, Hsame.
  - intros k row Hk Hne Hslug Hsame. exists result. split; [done|]. intros ->.
    apply resolves_free in Hres. simpl in Hres.
    assert (Fields.is_slug_exists fld model slug instance = true) as Hheld; [|congruence].
    apply is_slug_exists_partial; [done..|]. by exists k, row.
Qed.

(** ** settings/checks.py and settings/conf.py *)

Section Validation.
Variable str : PyValue → string.

Lemma check_items_app config_name items errors :
  Checks.check_items str config_name items errors
  = errors ++ Checks.check_items str config_name items [].
Proof.
  revert errors. induction items as [|[key value] items IH]; intros errors; simpl.
  - by rewrite app_nil_r.
  - rewrite IH. symmetry. rewrite IH.
    destruct (is_str key), (is_str value); simpl;
      by rewrite ?app_nil_r, <- ?app_assoc.
Qed.

Lemma check_items_nil config_name items :
  Checks.check_items str config_name items [] = [] ↔
  Forall (λ kv, is_str kv.1 = true ∧ is_str kv.2 = true) items.
Proof.
  induction items as [|[key value] items IH]; simpl.
  - split; [intros _; apply Forall_nil_2 | done].
  - rewrite Forall_cons, <- IH, check_items_app. simpl.
    destruct (is_str key), (is_str value); simpl; split;
      try done; try (by intros [[??] _]); try (by intros [? ?]).
Qed.

Lemma validate_type_mapping_nil mapping config_name :
  Checks.validate_type_mapping str mapping config_name = [] ↔ well_formed_mapping mapping.
Proof.
  unfold well_formed_mapping.
  destruct mapping as [s|n| |l|items]; simpl;
    try (split; [done | by intros (items' & ? & _)]).
  rewrite check_items_nil. split.
  - intros Hall. by exists items.
  - intros (items' & [= <-] & Hall). done.
Qed.

(** The validation of the type mapping reports nothing exactly for a
    dictionary whose keys and values are all strings. *)
Theorem validate_type_mapping_accepts mapping config_name :
  Checks.validate_type_mapping str mapping config_name = [] ↔ well_formed_mapping mapping.
Proof. apply validate_type_mapping_nil. Qed.

(** The system check reports nothing when [SAGESLUG_TYPE_MAPPING] is not
    set, the fallback mapping being well formed, and otherwise exactly when
    the value set is a dictionary of strings. *)
Theorem check_sageslug_settings_accepts (settings : gmap string PyValue) :
  Checks.check_sageslug_settings str settings = [] ↔
  match settings !! "SAGESLUG_TYPE_MAPPING" with
  | Some mapping => well_formed_mapping mapping
  | None => True
  end.
Proof.
  unfold Checks.check_sageslug_settings. simpl.
  rewrite validate_type_mapping_nil.
  unfold SageSlugConfig.slug_type_mapping, SageSlugConfig.get_setting.
  change (SageSlugConfig.CONFIG_PREFIX +:+ "TYPE_MAPPING") with "SAGESLUG_TYPE_MAPPING".
  destruct (settings !! "SAGESLUG_TYPE_MAPPING") as [mapping|]; simpl; [done|].
  split; [done|]. intros _. eexists. split; [done|].
  repeat constructor.
Qed.

End Validation.

(** ** mixins.py: the ledger step on any ledger *)

(** An instance without a usable key leaves the ledger alone. With a key,
    the step raises [MultipleObjectsReturned] exactly when two rows or more hold
    the old slug, and then changes nothing; when it returns, exactly one row is keyed on the old
    slug, whatever the ledger was, and that row carries the new slug and the
    instance as owner. The tables are never touched. *)
Theorem handle_slug_swap_logic_upserts st self old new :
  (pk_truthy (pk self) = false →
   Mixins.handle_slug_swap_logic st self old new = (st, Returns ())) ∧
  (∀ k, pk self = Some k → k ≠ 0%Z →
     ((Mixins.handle_slug_swap_logic st self old new).2 = Raises MultipleObjectsReturned ↔
      (2 ≤ length (filter (λ r, old_slug r = old) (ledger st)))%nat) ∧
     ((Mixins.handle_slug_swap_logic st self old new).2 = Raises MultipleObjectsReturned →
      (Mixins.handle_slug_swap_logic st self old new).1 = st) ∧
     ((Mixins.handle_slug_swap_logic st self old new).2 = Returns () →
      tables (Mixins.handle_slug_swap_logic st self old new).1 = tables st ∧
      ∃ kept,
        filter (λ r, old_slug r = old)
          (ledger (Mixins.handle_slug_swap_logic st self old new).1)
        = [ {| old_slug := old; new_slug := new; content_type := cls self;
               object_id := k; redirect_type := kept |} ])).
Proof.
  split.
  - unfold Mixins.handle_slug_swap_logic. destruct (pk self) as [k|]; [|done].
    by intros ->.
  - intros k Hpk Hk. unfold Mixins.handle_slug_swap_logic. rewrite Hpk.
    assert (pk_truthy (Some k) = true) as -> by (simpl; by apply bool_decide_eq_true_2).
    pose proof (update_or_create_raises (ledger st) old new (cls self) k) as Hraises.
    destruct (update_or_create (ledger st) old new (cls self) k) as [rows'|e|] eqn:Hu;
      simpl.
    + split; [|split; [done|]].
      * rewrite <- Hraises. split; done.
      * intros _. split; [done|].
        destruct (update_or_create_returns _ _ _ _ _ _ Hu) as [Hone _]. exact Hone.
    + split; [|split; [done | done]].
      rewrite <- Hraises. split; intros He; injection He as ->; done.
    + exfalso. unfold update_or_create in Hu.
      destruct (filter _ (ledger st)) as [|r [|r' found]];
        [destruct (decide (k < 0)%Z).. | ]; congruence.
Qed.

(** ** The further properties at work on the sample data *)

Lemma process_response_no_parameter_witness :
  Middleware.process_response Examples.reverse Conf.default_slug_type_mapping
    renamed_ledger request_by_id not_found = not_found.
Proof.
  apply (process_response_no_parameter Examples.reverse Conf.default_slug_type_mapping
           renamed_ledger request_by_id
           {| Middleware.view_name := "post-by-id"; Middleware.kwargs := {[ "pk" := "7" ]} |}
           not_found eq_refl).
  intros name ty Hin. left.
  repeat (apply elem_of_cons in Hin as [[= -> ->]|Hin]; [vm_compute; reflexivity|]).
  by apply elem_of_nil in Hin.
Defined.

Lemma process_response_falls_back_witness :
  (∀ updated_kwargs, Examples.reverse "post-by-id" updated_kwargs = None) ∧
  Middleware.process_response Examples.reverse [("pk", "post")] renamed_ledger
    request_by_id not_found = not_found.
Proof.
  assert (∀ updated_kwargs, Examples.reverse "post-by-id" updated_kwargs = None) as Hfail.
  { intros updated_kwargs. reflexivity. }
  split; [exact Hfail|].
  apply (process_response_falls_back Examples.reverse [("pk", "post")] renamed_ledger
           request_by_id not_found).
  right. eexists. split; [reflexivity | exact Hfail].
Defined.

Lemma collect_rewrites_witness :
  NoDup Conf.default_slug_type_mapping.*1 ∧
  ∃ updated_kwargs,
    Middleware.collect renamed_ledger (request_for "old-name")
      Conf.default_slug_type_mapping ∅ = Returns updated_kwargs ∧
    updated_kwargs !! "post_slug" = Some "new-name" ∧
    updated_kwargs !! "product_slug" = None.
Proof.
  assert (NoDup Conf.default_slug_type_mapping.*1) as Hnd.
  { exact (bool_decide_unpack (NoDup Conf.default_slug_type_mapping.*1) I). }
  split; [exact Hnd|].
  destruct (collect_rewrites Conf.default_slug_type_mapping renamed_ledger
              (request_for "old-name")
              {| Middleware.view_name := "post-detail";
                 Middleware.kwargs := {[ "post_slug" := "old-name" ]} |}
              eq_refl Hnd) as (updated_kwargs & Hcollect & Hlook).
  exists updated_kwargs. split; [exact Hcollect|].
  rewrite !Hlook. split; vm_compute; reflexivity.
Defined.

Lemma save_writes_row_witness :
  (Mixins.save Text.slugify write empty_store (post None "Hello World" "")).2 = Returns () ∧
  ∃ k, pk (Mixins.save Text.slugify write empty_store (post None "Hello World" "")).1.2
       = Some k.
Proof.
  split; [vm_compute; reflexivity|].
  destruct (save_writes_row Text.slugify empty_store (post None "Hello World" "")
              (Mixins.save Text.slugify write empty_store (post None "Hello World" "")).1.1
              (Mixins.save Text.slugify write empty_store (post None "Hello World" "")).1.2
              ltac:(vm_compute; reflexivity)) as (k & Hk & _).
  by exists k.
Defined.

Lemma renamed_slug_resolves_witness :
  (Mixins.save Text.slugify write old_name (post (Some 1%Z) "New Name" "old-name")).2
    = Returns () ∧
  getattr (attrs (Mixins.save Text.slugify write old_name
                    (post (Some 1%Z) "New Name" "old-name")).1.2) "slug" = "new-name" ∧
  Middleware._get_new_slug
    (ledger (Mixins.save Text.slugify write old_name
               (post (Some 1%Z) "New Name" "old-name")).1.1)
    (getattr {[ "title" := "Old Name"; "slug" := "old-name" ]} "slug")
    (cls (post (Some 1%Z) "New Name" "old-name"))
  = getattr (attrs (Mixins.save Text.slugify write old_name
                      (post (Some 1%Z) "New Name" "old-name")).1.2) "slug".
Proof.
  split; [vm_compute; reflexivity|]. split; [vm_compute; reflexivity|].
  apply (renamed_slug_resolves Text.slugify old_name
           (post (Some 1%Z) "New Name" "old-name")
           (Mixins.save Text.slugify write old_name
              (post (Some 1%Z) "New Name" "old-name")).1.1
           (Mixins.save Text.slugify write old_name
              (post (Some 1%Z) "New Name" "old-name")).1.2
           1%Z {[ "title" := "Old Name"; "slug" := "old-name" ]});
    [vm_compute; reflexivity | reflexivity | lia | vm_compute; reflexivity
    | vm_compute; reflexivity | vm_compute; discriminate].
Defined.


(** The second source at work: under the key [-1] the renamed entity is
    written and the ledger step raises. *)
Example negative_key_fails_in_ledger :
  (Mixins.save Text.slugify write negative_key (post (Some (-1)%Z) "B" "a")).2
    = Raises IntegrityError ∧
  (Mixins.objects
     (Mixins.save Text.slugify write negative_key (post (Some (-1)%Z) "B" "a")).1.1
     (post (Some (-1)%Z) "B" "a") !! (-1)%Z) ≫= (λ row, row !! "slug") = Some "b" ∧
  ledger (Mixins.save Text.slugify write negative_key (post (Some (-1)%Z) "B" "a")).1.1
    = [].
Proof. vm_compute. done. Qed.

Lemma upsert_failure_keeps_write_witness :
  (Mixins.save Text.slugify write doubled_key (post (Some 1%Z) "B" "a")).2
    = Raises MultipleObjectsReturned ∧
  ledger (Mixins.save Text.slugify write doubled_key (post (Some 1%Z) "B" "a")).1.1
    = ledger doubled_key.
Proof.
  split; [vm_compute; reflexivity|].
  apply (upsert_failure_keeps_write Text.slugify doubled_key (post (Some 1%Z) "B" "a")
           (Mixins.save Text.slugify write doubled_key (post (Some 1%Z) "B" "a")).1.1
           (Mixins.save Text.slugify write doubled_key (post (Some 1%Z) "B" "a")).1.2).
  vm_compute. reflexivity.
Defined.

Lemma generate_slug_unique_witness :
  Fields.generate_slug dated_slug news_2024 news_2025
    = Returns (setattr news_2025 "slug" "news-1") ∧
  Fields.is_slug_exists dated_slug news_2024 "news-1" (setattr news_2025 "slug" "news-1")
    = false.
Proof.
  assert (Fields.generate_slug dated_slug news_2024 news_2025
          = Returns (setattr news_2025 "slug" "news-1")) as Hrun
    by (vm_compute; reflexivity).
  split; [exact Hrun|].
  apply (generate_slug_unique dated_slug news_2024 news_2025
           (setattr news_2025 "slug" "news-1") (or_introl eq_refl) Hrun).
  vm_compute. discriminate.
Defined.

Lemma always_update_without_source_clears_slug_witness :
  Fields.always_update refreshed_slug = true ∧
  Fields.populate_from refreshed_slug = None ∧
  Fields.generate_slug refreshed_slug news_2024 news_2025
    = Returns (setattr news_2025 "slug" "").
Proof.
  split; [reflexivity|]. split; [reflexivity|].
  apply (always_update_without_source_clears_slug refreshed_slug news_2024 news_2025);
    reflexivity.
Defined.

Lemma existing_slug_is_kept_witness :
  Fields.is_slug_exists scoped_slug news_2024 "news" news_2025 = false ∧
  Fields.generate_slug scoped_slug news_2024 news_2025
    = Returns (setattr news_2025 "slug" "news").
Proof.
  assert (Fields.is_slug_exists scoped_slug news_2024 "news" news_2025 = false) as Hfree
    by (vm_compute; reflexivity).
  split; [exact Hfree|].
  apply (existing_slug_is_kept scoped_slug news_2024 news_2025);
    [reflexivity | vm_compute; discriminate | exact Hfree].
Defined.

Lemma generate_slug_idempotent_witness :
  Fields.generate_slug dated_slug news_2024 news_2025
    = Returns (setattr news_2025 "slug" "news-1") ∧
  Fields.generate_slug dated_slug news_2024 (setattr news_2025 "slug" "news-1")
    = Returns (setattr news_2025 "slug" "news-1").
Proof.
  assert (Fields.generate_slug dated_slug news_2024 news_2025
          = Returns (setattr news_2025 "slug" "news-1")) as Hrun
    by (vm_compute; reflexivity).
  split; [exact Hrun|].
  apply (generate_slug_idempotent dated_slug news_2024 news_2025
           (setattr news_2025 "slug" "news-1") eq_refl Hrun).
  vm_compute. discriminate.
Defined.

Lemma generate_slug_populates_witness :
  getattr (attrs (post None "Hello World" "")) (Fields.attname titled_slug) = "" ∧
  Fields.source_truthy (Fields.populate_from titled_slug) = true ∧
  Fields.generate_slug titled_slug ∅ (post None "Hello World" "")
    = Returns (setattr (post None "Hello World" "") (Fields.attname titled_slug)
                 (Fields.slugify titled_slug
                    (Fields.get_prepopulated_value titled_slug
                       (post None "Hello World" "")))) ∧
  Fields.slugify titled_slug
    (Fields.get_prepopulated_value titled_slug (post None "Hello World" ""))
  = "hello-world".
Proof.
  assert (getattr (attrs (post None "Hello World" "")) (Fields.attname titled_slug) = "")
    as Hempty by (vm_compute; reflexivity).
  split; [exact Hempty|]. split; [reflexivity|]. split; [|vm_compute; reflexivity].
  apply (proj2 (generate_slug_populates titled_slug ∅ (post None "Hello World" "")
                  (or_intror Hempty) eq_refl));
    [vm_compute; discriminate | vm_compute; reflexivity].
Defined.

Lemma partial_uniqueness_scope_witness :
  Fields.unique scoped_slug = false ∧ Fields.unique_with scoped_slug ≠ [] ∧
  Fields.generate_unique_slug scoped_slug news_2024 news_2025 "news" = Some "news".
Proof.
  split; [reflexivity|]. split; [vm_compute; discriminate|].
  apply (proj1 (partial_uniqueness_scope scoped_slug news_2024 news_2025 "news"
                  eq_refl ltac:(vm_compute; discriminate))).
  intros k row Hk _ _. unfold news_2024 in Hk.
  apply lookup_singleton_Some in Hk as [<- <-].
  exists "pub_date". split; [vm_compute; apply list_elem_of_here|].
  split; [vm_compute; discriminate | vm_compute; discriminate].
Defined.
